(** * m5stats-monitor: a shallow embedding and its verified properties

    The program under study is [utils/legacy/m5stats-monitor/m5stats-monitor.c]:
    it opens an inotify channel on a file, blocks in [poll], drains one
    fixed-size [struct inotify_event] per wake-up and sends [SIGUSR1] to a
    target process.

    The C functions are embedded one by one as computations in a small state
    monad.  The machine state carries the operating system (an arbitrary
    transition system answering system calls), the C variable [errno] and the
    chronological trace of the calls made so far.  The two loops of the
    program take an iteration bound; running out of it is an outcome of its
    own ([OutOfFuel]), distinct from returning. *)

From Stdlib Require Import ZArith List String Ascii Bool Lia.
Import ListNotations.
Local Open Scope Z_scope.

(** ** C integer types *)

Module C.

Definition wrap_unsigned (w z : Z) : Z := z mod 2 ^ w.
Definition wrap_signed (w z : Z) : Z := (z + 2 ^ (w - 1)) mod 2 ^ w - 2 ^ (w - 1).

(** [int] (and [pid_t], which is [int]) is 32-bit signed, [ssize_t] is
    64-bit signed and [size_t] is 64-bit unsigned (LP64). *)
Definition int : Z -> Z := wrap_signed 32.
Definition ssize_t : Z -> Z := wrap_signed 64.
Definition size_t : Z -> Z := wrap_unsigned 64.

Definition LONG_MAX : Z := 2 ^ 63 - 1.
Definition LONG_MIN : Z := - 2 ^ 63.

End C.

(** ** Constants of the system headers (Linux) *)

(** <errno.h> *)
Definition EINVAL : Z := 22.
Definition ERANGE : Z := 34.
(** <signal.h> *)
Definition SIGUSR1 : Z := 10.
(** <poll.h> *)
Definition POLLIN : Z := 1.
(** <sys/inotify.h> *)
Definition IN_MODIFY : Z := 2.
Definition IN_CREATE : Z := 256.

(** [sizeof(struct inotify_event)]: four 32-bit fields ([wd], [mask],
    [cookie], [len]) followed by a flexible array member. *)
Definition sizeof_inotify_event : Z := 16.

(** ** The operating system *)

(** The calls the program makes.  [read fd off count] stands for
    [read(fd, &buf[off], count)] where [buf] is the record being filled;
    [poll fd events nfds timeout] for a call on one [struct pollfd] with
    [revents = 0]. *)
Inductive syscall : Type :=
| inotify_init
| inotify_add_watch (fd : Z) (file : string) (mask : Z)
| poll (fd events nfds timeout : Z)
| read (fd off count : Z)
| kill (pid sig : Z)
| fprintf_stderr (msg : string).

(** What a call answers: its return value, the error number it stores in
    the [int] variable [errno] when the return value is negative, and for
    [read] the bytes it delivers. *)
Record reply : Type := Reply { ret : Z; err : Z; data : list Byte.byte }.

Definition event : Type := (syscall * reply)%type.

(** A byte of the record buffer is [None] while it is indeterminate. *)
Definition buffer : Type := list (option Byte.byte).

(** [write_at off bs buf]: the store of [bs] at [&buf[off]]. *)
Definition write_at (off : Z) (bs : list Byte.byte) (buf : buffer) : buffer :=
  firstn (Z.to_nat off) buf ++ map Some bs
    ++ skipn (Z.to_nat off + List.length bs) buf.

(** ** libc's atoi *)

Module Libc.

Definition isspace (c : ascii) : bool :=
  let n := nat_of_ascii c in
  (Nat.eqb n 32 || (Nat.leb 9 n && Nat.leb n 13))%bool.

Definition isdigit (c : ascii) : bool :=
  let n := nat_of_ascii c in (Nat.leb 48 n && Nat.leb n 57)%bool.

Fixpoint skip_space (s : string) : string :=
  match s with
  | String c s' => if isspace c then skip_space s' else s
  | EmptyString => s
  end.

Fixpoint digits (acc : Z) (s : string) : Z :=
  match s with
  | String c s' =>
      if isdigit c
      then digits (10 * acc + (Z.of_nat (nat_of_ascii c) - 48)) s'
      else acc
  | EmptyString => acc
  end.

(** The number the text denotes: leading white space, an optional sign,
    the longest run of decimal digits (none gives 0). *)
Definition number (s : string) : Z :=
  match skip_space s with
  | String "-"%char s' => - digits 0 s'
  | String "+"%char s' => digits 0 s'
  | s' => digits 0 s'
  end.

(** The number does not fit a [long]. *)
Definition out_of_range (s : string) : bool :=
  negb ((C.LONG_MIN <=? number s) && (number s <=? C.LONG_MAX)).

(** The value of [strtol(s, NULL, 10)]: the number, saturated to [long]. *)
Definition strtol (s : string) : Z :=
  Z.max C.LONG_MIN (Z.min C.LONG_MAX (number s)).

(** The value of [atoi(s)], which is [(int) strtol(s, NULL, 10)]. *)
Definition atoi (s : string) : Z := C.int (strtol s).

End Libc.

(** ** The machine *)

Inductive outcome (A : Type) : Type :=
| Done (a : A)
| OutOfFuel.
Arguments Done {A} a.
Arguments OutOfFuel {A}.

Section Machine.

Context {W : Type}.
Variable os : W -> syscall -> reply * W.

Record state : Type := State { world : W; errno : Z; trace : list event }.

Definition M (A : Type) : Type := state -> outcome A * state.

Definition Return {A} (a : A) : M A := fun s => (Done a, s).

Definition bind {A B} (m : M A) (k : A -> M B) : M B :=
  fun s =>
    match m s with
    | (Done a, s') => k a s'
    | (OutOfFuel, s') => (OutOfFuel, s')
    end.

Definition out_of_fuel {A} : M A := fun s => (OutOfFuel, s).

(** Reading the variable [errno]. *)
Definition get_errno : M Z := fun s => (Done (errno s), s).

(** A store in the variable [errno]. *)
Definition store_errno (e : Z) (s : state) : state :=
  {| world := world s; errno := e; trace := trace s |}.

Definition set_errno (e : Z) : M unit := fun s => (Done tt, store_errno e s).

(** One system call: the system answers and moves on, [errno] is stored
    when the call returns a negative value, the call is logged. *)
Definition sys (c : syscall) : M reply :=
  fun s =>
    let (r, w') := os (world s) c in
    (Done r,
     {| world := w';
        errno := if ret r <? 0 then err r else errno s;
        trace := trace s ++ [(c, r)] |}).

End Machine.

Arguments state W : clear implicits.
Arguments M W A : clear implicits.

Declare Scope prog_scope.
Delimit Scope prog_scope with prog.
Notation "x <- m ;; k" := (bind m (fun x => k))
  (at level 100, m at next level, right associativity) : prog_scope.
Notation "' p <- m ;; k" := (bind m (fun p => k))
  (at level 100, p pattern, m at next level, right associativity) : prog_scope.
Local Open Scope prog_scope.

(** ** The program *)

Section Program.

Context {W : Type}.
Variable os : W -> syscall -> reply * W.

Definition usage_text : string :=
"Usage: m5stat-monitor PATH PID

       PATH   Path to M5 stats.txt
       PID    PID of the process to notify. On each modification
              to the monitored file SIGUSR1 is sent to PID.
".

(** [usage] *)
Definition usage : M W unit :=
  _ <- sys os (fprintf_stderr usage_text) ;;
  Return tt.

(** libc's [atoi(nptr)], which is [(int) strtol(nptr, NULL, 10)]: it
    makes no system call, and [strtol] stores [ERANGE] in [errno] when the
    number does not fit a [long]. *)
Definition atoi (nptr : string) : M W Z :=
  if Libc.out_of_range nptr then
    _ <- set_errno ERANGE ;;
    Return (Libc.atoi nptr)
  else Return (Libc.atoi nptr).

(** [parse_argv]; [main] passes non-null [m5stats_file] and [pid], so
    both stores happen.  The result is the status with the two values
    stored ([None] where the function returned before storing). *)
Definition parse_argv (argc : Z) (argv : list string)
  : M W (Z * option (string * Z)) :=
  if negb (argc =? 3) then
    _ <- usage ;;
    Return (EINVAL, None)
  else
    let m5stats_file := nth 1 argv EmptyString in
    pid <- atoi (nth 2 argv EmptyString) ;;
    Return (0, Some (m5stats_file, pid)).

(** [create_file_monitor] *)
Definition create_file_monitor (file : string) : M W Z :=
  r <- sys os inotify_init ;;
  let fd := ret r in
  if fd <? 0 then Return fd
  else
    r <- sys os (inotify_add_watch fd file (Z.lor IN_MODIFY IN_CREATE)) ;;
    let wd := ret r in
    if wd <? 0 then Return wd
    else Return fd.

(** The loop of [read_inotify_event], at most [fuel] tests of its
    condition, from [len] bytes accumulated in [buf]. *)
Fixpoint read_loop (fuel : nat) (fd len : Z) (buf : buffer)
  : M W (Z * buffer) :=
  match fuel with
  | O => out_of_fuel
  | S fuel' =>
      if negb (C.size_t len =? sizeof_inotify_event) then
        r <- sys os (read fd len (C.size_t (sizeof_inotify_event - len))) ;;
        let res := ret r in
        if res <? 0 then
          e <- get_errno ;;
          Return (e, buf)
        else
          read_loop fuel' fd (C.ssize_t (len + res))
            (write_at len (data r) buf)
      else Return (0, buf)
  end.

(** [read_inotify_event]: status and the contents of [*out]. *)
Definition read_inotify_event (fuel : nat) (fd : Z) (out : buffer)
  : M W (Z * buffer) :=
  read_loop fuel fd 0 out.

(** The local [struct inotify_event ie] of [handle_inotify_event] before
    anything is stored in it. *)
Definition ie_indeterminate : buffer :=
  repeat None (Z.to_nat sizeof_inotify_event).

(** [handle_inotify_event] *)
Definition handle_inotify_event (rfuel : nat) (fd pid : Z) : M W Z :=
  '(status, _) <- read_inotify_event rfuel fd ie_indeterminate ;;
  if negb (status =? 0) then Return status
  else
    r <- sys os (kill pid SIGUSR1) ;;
    if negb (ret r =? 0) then
      e <- get_errno ;;
      Return e
    else Return 0.

(** The [for (;;)] of [monitor_file], at most [fuel] iterations, each
    with at most [rfuel] iterations of the reader's loop. *)
Fixpoint monitor_loop (fuel rfuel : nat) (fd pid : Z) : M W Z :=
  match fuel with
  | O => out_of_fuel
  | S fuel' =>
      r <- sys os (poll fd POLLIN 1 (-1)) ;;
      let status := ret r in
      if status <? 0 then
        e <- get_errno ;;
        Return e
      else
        status <- handle_inotify_event rfuel fd pid ;;
        if negb (status =? 0) then Return status
        else monitor_loop fuel' rfuel fd pid
  end.

(** [monitor_file] *)
Definition monitor_file (fuel rfuel : nat) (fd pid : Z) : M W Z :=
  monitor_loop fuel rfuel fd pid.

(** [main]; [argc] is the length of [argv]. *)
Definition main (fuel rfuel : nat) (argv : list string) : M W Z :=
  '(status, parsed) <- parse_argv (Z.of_nat (List.length argv)) argv ;;
  if negb (status =? 0) then Return status
  else
    let '(m5stats_file, pid) :=
      match parsed with
      | Some p => p
      | None => (EmptyString, 0)
      end in
    fd <- create_file_monitor m5stats_file ;;
    if fd <? 0 then Return (C.int (- fd))
    else monitor_file fuel rfuel fd pid.

End Program.

(** ** What a trace says *)

(** The bytes the successful reads of a trace delivered, in order. *)
Fixpoint delivered (tr : list event) : list Byte.byte :=
  match tr with
  | [] => []
  | (read _ _ _, r) :: tr' =>
      if ret r <? 0 then delivered tr' else data r ++ delivered tr'
  | _ :: tr' => delivered tr'
  end.

(** The notification attempts of a trace, in order. *)
Fixpoint notifications (tr : list event) : list (Z * Z) :=
  match tr with
  | [] => []
  | (kill pid sig, _) :: tr' => (pid, sig) :: notifications tr'
  | _ :: tr' => notifications tr'
  end.

(** [reader_trace fd len tr]: [tr] is a run of the reader's loop entered
    with [len] bytes accumulated: each call is a [read] at offset [len] for
    the bytes still missing, [len] is inside the record, what the call
    delivers fits the record, and nothing follows a failed call. *)
Fixpoint reader_trace (fd len : Z) (tr : list event) : Prop :=
  match tr with
  | [] => True
  | (c, r) :: tr' =>
      c = read fd len (sizeof_inotify_event - len)
      /\ 0 <= len < sizeof_inotify_event
      /\ if ret r <? 0 then tr' = []
         else len + ret r <= sizeof_inotify_event
              /\ Z.of_nat (List.length (data r)) = ret r
              /\ reader_trace fd (len + ret r) tr'
  end.

(** [iteration fd pid block]: [block] is one turn of the event loop that
    went well: the wait, the reads of one whole record, the signal. *)
Definition iteration (fd pid : Z) (block : list event) : Prop :=
  exists rp tr rk,
    block = (poll fd POLLIN 1 (-1), rp) :: tr ++ [(kill pid SIGUSR1, rk)]
    /\ 0 <= ret rp
    /\ reader_trace fd 0 tr
    /\ Z.of_nat (List.length (delivered tr)) = sizeof_inotify_event
    /\ ret rk = 0.

(** The call reported an error, as the program tests it: a negative
    result of [poll] or [read], a non-zero result of [kill]. *)
Definition reports_error (e : event) : bool :=
  match fst e with
  | poll _ _ _ _ | read _ _ _ => ret (snd e) <? 0
  | kill _ _ => negb (ret (snd e) =? 0)
  | _ => false
  end.

(** A failed blocking wait or read. *)
Definition fatal (e : event) : bool :=
  match fst e with
  | poll _ _ _ _ | read _ _ _ => ret (snd e) <? 0
  | _ => false
  end.

(** No wait and no read of the trace failed. *)
Definition quiet (tr : list event) : Prop := Forall (fun e => fatal e = false) tr.

(** The blocking waits of a trace. *)
Fixpoint waits (tr : list event) : nat :=
  match tr with
  | [] => O
  | (poll _ _ _ _, _) :: tr' => S (waits tr')
  | _ :: tr' => waits tr'
  end.

(** [turns armed pid tr]: in [tr] waits and signals alternate. [armed]
    tells whether a wait has been made that no signal has followed yet. A
    wait is made only when none is pending, a read or a signal only when
    one is; a signal is [SIGUSR1] to [pid] and uses up the pending wait.
    Nothing but waits, reads and signals occurs. *)
Fixpoint turns (armed : bool) (pid : Z) (tr : list event) : Prop :=
  match tr with
  | [] => True
  | (poll _ _ _ _, _) :: tr' => armed = false /\ turns true pid tr'
  | (read _ _ _, _) :: tr' => armed = true /\ turns true pid tr'
  | (kill pid' sig, _) :: tr' =>
      armed = true /\ pid' = pid /\ sig = SIGUSR1 /\ turns false pid tr'
  | _ :: _ => False
  end.

(** A [read] on descriptor [fd]. *)
Definition is_read (fd : Z) (e : event) : Prop :=
  match fst e with
  | read fd' _ _ => fd' = fd
  | _ => False
  end.

(** [addressed fd file pid e]: [e] is one of the calls the program makes
    once the channel is open, on the right objects: the registration of
    [file] on [fd] for modifications and creations, a wait without timeout
    on [fd] alone for input, a read on [fd], [SIGUSR1] to [pid]. *)
Definition addressed (fd : Z) (file : string) (pid : Z) (e : event) : Prop :=
  match fst e with
  | inotify_add_watch fd' file' mask =>
      fd' = fd /\ file' = file /\ mask = Z.lor IN_MODIFY IN_CREATE
  | poll fd' events nfds timeout =>
      fd' = fd /\ events = POLLIN /\ nfds = 1 /\ timeout = -1
  | read fd' _ _ => fd' = fd
  | kill pid' sig => pid' = pid /\ sig = SIGUSR1
  | inotify_init | fprintf_stderr _ => False
  end.

(** No call of the trace reported an error. *)
Definition calm (tr : list event) : Prop :=
  Forall (fun e => reports_error e = false) tr.

(** ** The environment of a run *)

Section Environment.

Context {W : Type}.
Variable os : W -> syscall -> reply * W.

(** The answer to call [c] in state [s], and the state it leaves. *)
Definition answer (s : state W) (c : syscall) : reply := fst (os (world s) c).

Definition after (s : state W) (c : syscall) : state W :=
  {| world := snd (os (world s) c);
     errno := if ret (answer s c) <? 0 then err (answer s c) else errno s;
     trace := trace s ++ [(c, answer s c)] |}.

(** The state [atoi(nptr)] leaves: the same, but for [errno] when the
    number is out of range. *)
Definition after_atoi (nptr : string) (s : state W) : state W :=
  if Libc.out_of_range nptr then store_errno ERANGE s else s.

(** What [read(2)] promises on descriptor [fd]: a failing call stores a
    non-zero error number, a successful one delivers at most [count]
    bytes and returns their number. *)
Definition posix_read (fd : Z) : Prop :=
  forall w off count,
    0 < count ->
    let r := fst (os w (read fd off count)) in
    (ret r < 0 -> err r <> 0)
    /\ ret r <= count
    /\ (0 <= ret r -> Z.of_nat (List.length (data r)) = ret r).

(** A channel on which every [read] delivers at least one byte (and, as
    [read(2)] promises, at most [count]). *)
Definition lively (fd : Z) : Prop :=
  forall w off count,
    0 < count ->
    let r := fst (os w (read fd off count)) in
    1 <= ret r <= count /\ Z.of_nat (List.length (data r)) = ret r.

(** A failing call stores a non-zero error number. *)
Definition posix_errno : Prop :=
  forall w c, ret (fst (os w c)) < 0 -> err (fst (os w c)) <> 0.

(** A system on which the program runs without error: the wait on [fd]
    and the signal to [pid] always succeed, the channel is lively. *)
Definition healthy_system (fd pid : Z) : Prop :=
  lively fd
  /\ forall w,
       0 <= ret (fst (os w (poll fd POLLIN 1 (-1))))
       /\ ret (fst (os w (kill pid SIGUSR1))) = 0.

(** [kill(2)] returns 0 or -1. *)
Definition posix_kill : Prop :=
  forall w pid sig, ret (fst (os w (kill pid sig))) <= 0.

(** The results of the calls are values of type [int]. *)
Definition int_results : Prop :=
  forall w c, - 2 ^ 31 <= ret (fst (os w c)) < 2 ^ 31.

End Environment.

(** ** Test doubles for the operating system *)

Module TestDouble.

(** <errno.h> *)
Definition ENOENT : Z := 2.
Definition EINTR : Z := 4.
Definition EMFILE : Z := 24.

(** A system without memory: every call is answered by [f]. *)
Definition constant (f : syscall -> reply) : unit -> syscall -> reply * unit :=
  fun w c => (f c, w).

(** A system driven by its clock: the call number [n] is answered by
    [f n]. *)
Definition timed (f : nat -> syscall -> reply) : nat -> syscall -> reply * nat :=
  fun n c => (f n c, S n).

(** A scripted system: the calls are answered by the replies of the
    script, one after the other, and by [f] once the script is used up. *)
Definition scripted (f : syscall -> reply)
  : list reply -> syscall -> reply * list reply :=
  fun w c =>
    match w with
    | r :: w' => (r, w')
    | [] => (f c, [])
    end.

Definition zeros (n : Z) : list Byte.byte := repeat Byte.x00 (Z.to_nat n).

(** Every call succeeds; a [read] delivers [chunk] bytes, or what was
    asked for when that is less. *)
Definition healthy (chunk : Z) (c : syscall) : reply :=
  match c with
  | inotify_init => Reply 3 0 []
  | inotify_add_watch _ _ _ => Reply 1 0 []
  | poll _ _ _ _ => Reply 1 0 []
  | read _ _ count =>
      let n := Z.min chunk (Z.max 0 count) in Reply n 0 (zeros n)
  | kill _ _ => Reply 0 0 []
  | fprintf_stderr _ => Reply 0 0 []
  end.

(** A channel at end of stream: every [read] returns 0. *)
Definition closed (c : syscall) : reply :=
  match c with
  | read _ _ _ => Reply 0 0 []
  | _ => healthy 1 c
  end.

(** The call number [k] is interrupted by a signal; the others are
    answered by [healthy 5]. *)
Definition interrupted_at (k : nat) (n : nat) (c : syscall) : reply :=
  if Nat.eqb n k then Reply (-1) EINTR [] else healthy 5 c.

(** The target process does not exist: every [kill] fails with [ESRCH];
    the other calls succeed and a [read] delivers the whole record. *)
Definition ESRCH : Z := 3.

Definition undeliverable (c : syscall) : reply :=
  match c with
  | kill _ _ => Reply (-1) ESRCH []
  | _ => healthy 16 c
  end.

Definition boot {W} (w : W) : state W := State w 0 [].

Definition argv0 : list string :=
  ["m5stat-monitor"; "/tmp/stats.txt"; "4242"]%string.

End TestDouble.

(** * Properties *)

(** ** Arithmetic of the C types *)

Lemma size_t_small z : 0 <= z < 2 ^ 64 -> C.size_t z = z.
Proof. intros H. unfold C.size_t, C.wrap_unsigned. apply Z.mod_small. exact H. Qed.

Lemma ssize_t_small z : - 2 ^ 63 <= z < 2 ^ 63 -> C.ssize_t z = z.
Proof.
  intros H. unfold C.ssize_t, C.wrap_signed.
  change (64 - 1) with 63. rewrite Z.mod_small; lia.
Qed.

Lemma int_small z : - 2 ^ 31 <= z < 2 ^ 31 -> C.int z = z.
Proof.
  intros H. unfold C.int, C.wrap_signed.
  change (32 - 1) with 31. rewrite Z.mod_small; lia.
Qed.

(** ** The record buffer *)

Lemma write_at_length off bs (buf : buffer) :
  0 <= off ->
  (Z.to_nat off + List.length bs <= List.length buf)%nat ->
  List.length (write_at off bs buf) = List.length buf.
Proof.
  intros Hoff Hfit. unfold write_at.
  rewrite !length_app, length_map, length_firstn, length_skipn. lia.
Qed.

Lemma write_at_prefix off bs (buf : buffer) :
  (Z.to_nat off + List.length bs <= List.length buf)%nat ->
  firstn (Z.to_nat off + List.length bs) (write_at off bs buf)
  = firstn (Z.to_nat off) buf ++ map Some bs.
Proof.
  intros Hfit. unfold write_at. rewrite app_assoc.
  rewrite firstn_app.
  rewrite length_app, length_map, length_firstn.
  replace (Z.to_nat off + List.length bs
           - (Nat.min (Z.to_nat off) (List.length buf) + List.length bs))%nat
    with 0%nat by lia.
  rewrite firstn_O, app_nil_r.
  apply firstn_all2.
  rewrite length_app, length_map, length_firstn. lia.
Qed.

(** ** Traces *)

Lemma delivered_read_failed fd off count r tr :
  ret r < 0 -> delivered ((read fd off count, r) :: tr) = delivered tr.
Proof. intros H. apply Z.ltb_lt in H. cbn [delivered]. now rewrite H. Qed.

Lemma delivered_read_done fd off count r tr :
  0 <= ret r -> delivered ((read fd off count, r) :: tr) = data r ++ delivered tr.
Proof. intros H. apply Z.ltb_ge in H. cbn [delivered]. now rewrite H. Qed.

Lemma delivered_app tr1 tr2 : delivered (tr1 ++ tr2) = delivered tr1 ++ delivered tr2.
Proof.
  induction tr1 as [|[c r] tr1 IH]; simpl; [reflexivity|].
  destruct c; try exact IH.
  destruct (ret r <? 0); [exact IH|]. rewrite IH. apply app_assoc.
Qed.

Lemma notifications_app tr1 tr2 :
  notifications (tr1 ++ tr2) = notifications tr1 ++ notifications tr2.
Proof.
  induction tr1 as [|[c r] tr1 IH]; simpl; [reflexivity|].
  destruct c; try exact IH. simpl. f_equal. exact IH.
Qed.

Lemma reader_trace_no_notification fd len tr :
  reader_trace fd len tr -> notifications tr = [].
Proof.
  revert len. induction tr as [|[c r] tr IH]; intros len H; [reflexivity|].
  simpl in H. destruct H as (-> & _ & H). simpl.
  destruct (ret r <? 0).
  - subst tr. reflexivity.
  - destruct H as (_ & _ & H). exact (IH _ H).
Qed.

(** ** Running the machine *)

Section Runs.

Context {W : Type}.
Variable os : W -> syscall -> reply * W.

Lemma sys_run c s : sys os c s = (Done (answer os s c), after os s c).
Proof. unfold sys, after, answer. destruct (os (world s) c); reflexivity. Qed.

Lemma trace_after c s : trace (after os s c) = trace s ++ [(c, answer os s c)].
Proof. reflexivity. Qed.

Lemma errno_after_failure c s : ret (answer os s c) < 0 -> errno (after os s c) = err (answer os s c).
Proof. intros H. simpl. apply Z.ltb_lt in H. rewrite H. reflexivity. Qed.

Lemma read_loop_unfold fuel fd len buf :
  read_loop os (S fuel) fd len buf =
  if negb (C.size_t len =? sizeof_inotify_event) then
    r <- sys os (read fd len (C.size_t (sizeof_inotify_event - len))) ;;
    if ret r <? 0 then e <- get_errno ;; Return (e, buf)
    else read_loop os fuel fd (C.ssize_t (len + ret r))
           (write_at len (data r) buf)
  else Return (0, buf).
Proof. reflexivity. Qed.

(** One iteration of the reader's loop, while the record is incomplete. *)
Lemma read_loop_step fuel fd len buf s :
  0 <= len < sizeof_inotify_event ->
  read_loop os (S fuel) fd len buf s =
  let c := read fd len (sizeof_inotify_event - len) in
  if ret (answer os s c) <? 0 then (Done (err (answer os s c), buf), after os s c)
  else read_loop os fuel fd (C.ssize_t (len + ret (answer os s c)))
         (write_at len (data (answer os s c)) buf) (after os s c).
Proof.
  intros Hlen. rewrite read_loop_unfold.
  rewrite !size_t_small by (unfold sizeof_inotify_event in *; lia).
  destruct (Z.eqb_spec len sizeof_inotify_event) as [E|_]; [lia|].
  cbv zeta. unfold negb, bind. rewrite sys_run.
  destruct (ret (answer os s (read fd len (sizeof_inotify_event - len))) <? 0) eqn:E;
    [|reflexivity].
  unfold get_errno, Return. rewrite errno_after_failure by (apply Z.ltb_lt; exact E).
  reflexivity.
Qed.

(** The loop's exit, once the record is complete. *)
Lemma read_loop_exit fuel fd buf s :
  read_loop os (S fuel) fd sizeof_inotify_event buf s = (Done (0, buf), s).
Proof. reflexivity. Qed.

Lemma read_loop_inv fd (Hos : posix_read os fd) fuel :
  forall len buf s out s',
    0 <= len <= sizeof_inotify_event ->
    List.length buf = Z.to_nat sizeof_inotify_event ->
    read_loop os fuel fd len buf s = (out, s') ->
    exists tr,
      trace s' = trace s ++ tr
      /\ reader_trace fd len tr
      /\ len + Z.of_nat (List.length (delivered tr)) <= sizeof_inotify_event
      /\ match out with
         | OutOfFuel => True
         | Done (st, buf') =>
             List.length buf' = Z.to_nat sizeof_inotify_event
             /\ (st = 0 ->
                 len + Z.of_nat (List.length (delivered tr)) = sizeof_inotify_event
                 /\ buf' = firstn (Z.to_nat len) buf ++ map Some (delivered tr))
             /\ (st <> 0 ->
                 exists pre c r, tr = pre ++ [(c, r)] /\ ret r < 0 /\ st = err r)
         end.
Proof.
  induction fuel as [|fuel IH]; intros len buf s out s' Hlen Hbuf Hrun.
  - inversion Hrun; subst. exists []. rewrite app_nil_r.
    cbn [reader_trace delivered List.length]. repeat split; lia.
  - destruct (Z.eq_dec len sizeof_inotify_event) as [->|Hne].
    + rewrite read_loop_exit in Hrun. inversion Hrun; subst.
      exists []. rewrite app_nil_r.
      cbn [reader_trace delivered List.length map].
      rewrite firstn_all2, app_nil_r by lia.
      repeat split; try lia; try (intros H; now elim H).
    + rewrite read_loop_step in Hrun by lia. cbv zeta in Hrun.
      pose proof (Hos (world s) len (sizeof_inotify_event - len)) as Hr.
      specialize (Hr ltac:(lia)). cbv zeta in Hr.
      change (fst (os (world s) (read fd len (sizeof_inotify_event - len))))
        with (answer os s (read fd len (sizeof_inotify_event - len))) in Hr.
      remember (answer os s (read fd len (sizeof_inotify_event - len))) as r eqn:Er.
      destruct Hr as (Herr & Hmax & Hdata).
      destruct (Z.ltb_spec (ret r) 0) as [Eneg|Epos].
      * apply pair_equal_spec in Hrun as [<- <-].
        exists [(read fd len (sizeof_inotify_event - len), r)].
        rewrite trace_after, <- Er, delivered_read_failed by assumption.
        cbn [reader_trace delivered List.length map].
        replace (ret r <? 0) with true by (symmetry; now apply Z.ltb_lt).
        rewrite app_nil_r.
        repeat split; try lia; try (intros E; elim (Herr Eneg E)).
        intros _. eexists [], _, r. now repeat split.
      * specialize (Hdata Epos).
        rewrite ssize_t_small in Hrun by (unfold sizeof_inotify_event in *; lia).
        apply IH in Hrun;
          [|lia|rewrite write_at_length; [assumption|lia|lia]].
        destruct Hrun as (tr & Htr & Hshape & Hacc & Hout).
        exists ((read fd len (sizeof_inotify_event - len), r) :: tr).
        rewrite delivered_read_done by assumption.
        cbn [reader_trace].
        replace (ret r <? 0) with false by (symmetry; now apply Z.ltb_ge).
        rewrite length_app.
        split; [rewrite Htr, trace_after, <- Er; now rewrite <- app_assoc|].
        split; [repeat split; try lia; assumption|].
        split; [lia|].
        destruct out as [[st buf']|]; [|exact I].
        destruct Hout as (Hlen' & Hok & Hko).
        split; [assumption|]. split.
        -- intros Hst. destruct (Hok Hst) as (Hsum & Hbuf').
           split; [lia|]. rewrite Hbuf'.
           replace (Z.to_nat (len + ret r))
             with (Z.to_nat len + List.length (data r))%nat by lia.
           rewrite write_at_prefix by lia.
           now rewrite map_app, app_assoc.
        -- intros Hst. destruct (Hko Hst) as (pre & c' & r' & -> & Hneg & Hst').
           eexists (_ :: pre), c', r'. now repeat split.
Qed.

(** [handle_inotify_event], call by call. *)
Lemma handle_run rfuel fd pid s :
  handle_inotify_event os rfuel fd pid s =
  match read_inotify_event os rfuel fd ie_indeterminate s with
  | (Done (st, _), s1) =>
      if negb (st =? 0) then (Done st, s1)
      else
        let c := kill pid SIGUSR1 in
        (Done (if negb (ret (answer os s1 c) =? 0) then errno (after os s1 c) else 0),
         after os s1 c)
  | (OutOfFuel, s1) => (OutOfFuel, s1)
  end.
Proof.
  unfold handle_inotify_event, bind at 1.
  destruct (read_inotify_event os rfuel fd ie_indeterminate s) as [[[st ie]|] s1];
    [|reflexivity].
  destruct (negb (st =? 0)); [reflexivity|].
  unfold bind. rewrite sys_run. cbv zeta.
  destruct (negb (ret (answer os s1 (kill pid SIGUSR1)) =? 0)); reflexivity.
Qed.

(** One iteration of the event loop. *)
Lemma monitor_loop_step fuel rfuel fd pid s :
  monitor_loop os (S fuel) rfuel fd pid s =
  let c := poll fd POLLIN 1 (-1) in
  if ret (answer os s c) <? 0 then (Done (errno (after os s c)), after os s c)
  else
    match handle_inotify_event os rfuel fd pid (after os s c) with
    | (Done st, s2) =>
        if negb (st =? 0) then (Done st, s2)
        else monitor_loop os fuel rfuel fd pid s2
    | (OutOfFuel, s2) => (OutOfFuel, s2)
    end.
Proof.
  cbn [monitor_loop]. unfold bind at 1. rewrite sys_run. cbv zeta.
  destruct (ret (answer os s (poll fd POLLIN 1 (-1))) <? 0); [reflexivity|].
  unfold bind at 1.
  destruct (handle_inotify_event os rfuel fd pid (after os s (poll fd POLLIN 1 (-1))))
    as [[st|] s2]; [|reflexivity].
  destruct (negb (st =? 0)); reflexivity.
Qed.

(** [create_file_monitor], call by call. *)
Lemma create_file_monitor_run file s :
  create_file_monitor os file s =
  let c1 := inotify_init in
  let fd := ret (answer os s c1) in
  if fd <? 0 then (Done fd, after os s c1)
  else
    let c2 := inotify_add_watch fd file (Z.lor IN_MODIFY IN_CREATE) in
    let wd := ret (answer os (after os s c1) c2) in
    (Done (if wd <? 0 then wd else fd), after os (after os s c1) c2).
Proof.
  unfold create_file_monitor, bind at 1. rewrite sys_run. cbv zeta.
  destruct (ret (answer os s inotify_init) <? 0); [reflexivity|].
  unfold bind. rewrite sys_run.
  destruct (ret (answer os (after os s inotify_init) _) <? 0); reflexivity.
Qed.

(** [atoi] as a run of the machine. *)
Lemma atoi_run nptr (s : state W) :
  atoi nptr s = (Done (Libc.atoi nptr), after_atoi nptr s).
Proof. unfold atoi, after_atoi. destruct (Libc.out_of_range nptr); reflexivity. Qed.

Lemma world_after_atoi nptr (s : state W) : world (after_atoi nptr s) = world s.
Proof. unfold after_atoi. destruct (Libc.out_of_range nptr); reflexivity. Qed.

Lemma trace_after_atoi nptr (s : state W) : trace (after_atoi nptr s) = trace s.
Proof. unfold after_atoi. destruct (Libc.out_of_range nptr); reflexivity. Qed.

(** States that differ in [errno] only get the same answers, and are the
    same again after a call that fails. *)
Lemma answer_agree s0 s c : world s0 = world s -> answer os s0 c = answer os s c.
Proof. intros Hw. unfold answer. now rewrite Hw. Qed.

Lemma after_agree s0 s c :
  world s0 = world s -> trace s0 = trace s ->
  world (after os s0 c) = world (after os s c)
  /\ trace (after os s0 c) = trace (after os s c).
Proof.
  intros Hw Ht. unfold after, answer. cbn [world trace]. now rewrite Hw, Ht.
Qed.

Lemma after_failed_agree s0 s c :
  world s0 = world s -> trace s0 = trace s ->
  ret (answer os s c) < 0 ->
  after os s0 c = after os s c.
Proof.
  intros Hw Ht Hneg. unfold after. rewrite (answer_agree s0 s c Hw), Hw, Ht.
  apply Z.ltb_lt in Hneg. now rewrite Hneg.
Qed.

Lemma answer_after_atoi nptr s c :
  answer os (after_atoi nptr s) c = answer os s c.
Proof. apply answer_agree, world_after_atoi. Qed.

Lemma answer_after_atoi_call nptr s c1 c2 :
  answer os (after os (after_atoi nptr s) c1) c2 = answer os (after os s c1) c2.
Proof.
  apply answer_agree.
  apply (after_agree _ _ c1 (world_after_atoi nptr s) (trace_after_atoi nptr s)).
Qed.

Lemma trace_after_atoi_call nptr s c :
  trace (after os (after_atoi nptr s) c) = trace s ++ [(c, answer os s c)].
Proof. rewrite trace_after, trace_after_atoi, answer_after_atoi. reflexivity. Qed.

Lemma trace_after_atoi_calls nptr s c1 c2 :
  trace (after os (after os (after_atoi nptr s) c1) c2)
  = trace s ++ [(c1, answer os s c1); (c2, answer os (after os s c1) c2)].
Proof.
  rewrite trace_after, trace_after_atoi_call, answer_after_atoi_call.
  now rewrite <- app_assoc.
Qed.

Lemma after_atoi_failed nptr s c :
  ret (answer os s c) < 0 -> after os (after_atoi nptr s) c = after os s c.
Proof. apply after_failed_agree; [apply world_after_atoi|apply trace_after_atoi]. Qed.

Lemma after_atoi_failed_second nptr s c1 c2 :
  ret (answer os (after os s c1) c2) < 0 ->
  after os (after os (after_atoi nptr s) c1) c2 = after os (after os s c1) c2.
Proof.
  apply after_failed_agree;
    apply (after_agree _ _ c1 (world_after_atoi nptr s) (trace_after_atoi nptr s)).
Qed.

(** [main] on a command line of two arguments. *)
Lemma main_run_args fuel rfuel argv s :
  List.length argv = 3%nat ->
  main os fuel rfuel argv s =
  match
    create_file_monitor os (nth 1 argv EmptyString)
      (after_atoi (nth 2 argv EmptyString) s)
  with
  | (Done fd, s1) =>
      if fd <? 0 then (Done (C.int (- fd)), s1)
      else monitor_file os fuel rfuel fd (Libc.atoi (nth 2 argv EmptyString)) s1
  | (OutOfFuel, s1) => (OutOfFuel, s1)
  end.
Proof.
  intros Hargc. unfold main, parse_argv. rewrite Hargc.
  change (negb (Z.of_nat 3 =? 3)) with false. cbv iota.
  unfold bind at 1. unfold bind at 1. rewrite atoi_run.
  unfold Return at 1. cbn [Z.eqb negb]. unfold bind.
  destruct (create_file_monitor os (nth 1 argv EmptyString)
              (after_atoi (nth 2 argv EmptyString) s)) as [[fd|] s1]; [|reflexivity].
  destruct (fd <? 0); reflexivity.
Qed.

Lemma main_run fuel rfuel prog path pidstr s :
  main os fuel rfuel [prog; path; pidstr] s =
  match create_file_monitor os path (after_atoi pidstr s) with
  | (Done fd, s1) =>
      if fd <? 0 then (Done (C.int (- fd)), s1)
      else monitor_file os fuel rfuel fd (Libc.atoi pidstr) s1
  | (OutOfFuel, s1) => (OutOfFuel, s1)
  end.
Proof. apply (main_run_args fuel rfuel [prog; path; pidstr] s). reflexivity. Qed.

(** A result obtained within some bounds is the result within any larger
    bounds: the bounds cut runs short, they do not change them. *)
Lemma read_loop_fuel_mono fd fuel :
  forall fuel' len buf s x s',
    (fuel <= fuel')%nat ->
    read_loop os fuel fd len buf s = (Done x, s') ->
    read_loop os fuel' fd len buf s = (Done x, s').
Proof.
  induction fuel as [|fuel IH]; intros fuel' len buf s x s' Hle Hrun; [discriminate|].
  destruct fuel' as [|fuel']; [lia|].
  rewrite read_loop_unfold in *.
  destruct (negb (C.size_t len =? sizeof_inotify_event)); [|exact Hrun].
  unfold bind at 1 in Hrun. unfold bind at 1. rewrite sys_run in *.
  destruct (ret (answer os s _) <? 0); [exact Hrun|].
  apply IH; [lia|exact Hrun].
Qed.

Lemma handle_fuel_mono fd pid rfuel rfuel' s st s' :
  (rfuel <= rfuel')%nat ->
  handle_inotify_event os rfuel fd pid s = (Done st, s') ->
  handle_inotify_event os rfuel' fd pid s = (Done st, s').
Proof.
  intros Hle. rewrite !handle_run. unfold read_inotify_event.
  destruct (read_loop os rfuel fd 0 ie_indeterminate s) as [[x|] s1] eqn:Hread;
    [|discriminate].
  rewrite (read_loop_fuel_mono fd rfuel rfuel' 0 _ s x s1 Hle Hread). trivial.
Qed.

Lemma monitor_loop_fuel_mono fd pid rfuel rfuel' fuel :
  forall fuel' s st s',
    (fuel <= fuel')%nat ->
    (rfuel <= rfuel')%nat ->
    monitor_loop os fuel rfuel fd pid s = (Done st, s') ->
    monitor_loop os fuel' rfuel' fd pid s = (Done st, s').
Proof.
  induction fuel as [|fuel IH]; intros fuel' s st s' Hle Hrle Hrun; [discriminate|].
  destruct fuel' as [|fuel']; [lia|].
  rewrite monitor_loop_step in *. cbv zeta in *.
  destruct (ret (answer os s _) <? 0); [exact Hrun|].
  destruct (handle_inotify_event os rfuel fd pid _) as [[st1|] s2] eqn:Hhandle;
    [|discriminate].
  rewrite (handle_fuel_mono fd pid rfuel rfuel' _ st1 s2 Hrle Hhandle).
  destruct (negb (st1 =? 0)); [exact Hrun|].
  apply IH; [lia|assumption|exact Hrun].
Qed.

End Runs.

(** ** The event record reader *)

Section Reader.

Context {W : Type}.
Variable os : W -> syscall -> reply * W.

Lemma lively_posix_read fd : lively os fd -> posix_read os fd.
Proof.
  intros H w off count Hc. destruct (H w off count Hc) as (Hret & Hdata).
  cbv zeta. repeat split; try lia.
Qed.

(** On a lively channel the loop ends, in at most one iteration per
    missing byte and one more for the last test. *)
Lemma read_loop_completes fd (Hos : lively os fd) fuel :
  forall len buf s,
    0 <= len <= sizeof_inotify_event ->
    (Z.to_nat (sizeof_inotify_event - len) < fuel)%nat ->
    exists buf' s', read_loop os fuel fd len buf s = (Done (0, buf'), s').
Proof.
  induction fuel as [|fuel IH]; intros len buf s Hlen Hfuel; [lia|].
  destruct (Z.eq_dec len sizeof_inotify_event) as [->|Hne].
  - exists buf, s. apply read_loop_exit.
  - rewrite read_loop_step by lia. cbv zeta.
    destruct (Hos (world s) len (sizeof_inotify_event - len)) as (Hret & _); [lia|].
    change (fst (os (world s) (read fd len (sizeof_inotify_event - len))))
      with (answer os s (read fd len (sizeof_inotify_event - len))) in Hret.
    destruct (Z.ltb_spec (ret (answer os s (read fd len (sizeof_inotify_event - len)))) 0);
      [lia|].
    rewrite ssize_t_small by (unfold sizeof_inotify_event in *; lia).
    apply IH; lia.
Qed.

Lemma read_inotify_event_lively fd rfuel buf s :
  lively os fd ->
  List.length buf = Z.to_nat sizeof_inotify_event ->
  (Z.to_nat sizeof_inotify_event < rfuel)%nat ->
  exists ie s1 tr,
    read_inotify_event os rfuel fd buf s = (Done (0, ie), s1)
    /\ trace s1 = trace s ++ tr
    /\ reader_trace fd 0 tr
    /\ Z.of_nat (List.length (delivered tr)) = sizeof_inotify_event
    /\ ie = map Some (delivered tr).
Proof.
  intros Hos Hbuf Hfuel.
  destruct (read_loop_completes fd Hos rfuel 0 buf s) as (ie & s1 & Hrun);
    [unfold sizeof_inotify_event; lia|lia|].
  destruct (read_loop_inv os fd (lively_posix_read fd Hos) rfuel 0 buf s
              (Done (0, ie)) s1)
    as (tr & Htr & Hshape & _ & _ & Hok & _);
    [unfold sizeof_inotify_event; lia|assumption|assumption|].
  destruct (Hok eq_refl) as (Hsum & Hie).
  exists ie, s1, tr. repeat split; try assumption; lia.
Qed.

(** On a lively channel [handle_inotify_event] reads one whole record,
    sends the signal and returns. *)
Lemma handle_lively fd pid rfuel s :
  lively os fd ->
  (Z.to_nat sizeof_inotify_event < rfuel)%nat ->
  exists s1 tr,
    handle_inotify_event os rfuel fd pid s
    = (Done (if negb (ret (answer os s1 (kill pid SIGUSR1)) =? 0)
             then errno (after os s1 (kill pid SIGUSR1)) else 0),
       after os s1 (kill pid SIGUSR1))
    /\ trace s1 = trace s ++ tr
    /\ reader_trace fd 0 tr
    /\ Z.of_nat (List.length (delivered tr)) = sizeof_inotify_event.
Proof.
  intros Hos Hfuel.
  destruct (read_inotify_event_lively fd rfuel ie_indeterminate s Hos)
    as (ie & s1 & tr & Hrun & Htr & Hshape & Hsum & _);
    [apply repeat_length|assumption|].
  exists s1, tr. rewrite handle_run, Hrun. now repeat split.
Qed.

(** C10: in every run of the reader on a descriptor that keeps the promises
    of read(2), each call is a read at the offset of the bytes accumulated
    so far, which lies in [0, sizeof(struct inotify_event)), for exactly the
    bytes still missing; what it delivers fits the record, so the
    accumulated count never exceeds the record size and the buffer keeps
    its size; on success exactly sizeof(struct inotify_event) bytes were
    consumed and they are the contents of the record. *)
Theorem read_inotify_event_stays_in_bounds fd fuel out s res s' :
  posix_read os fd ->
  List.length out = Z.to_nat sizeof_inotify_event ->
  read_inotify_event os fuel fd out s = (res, s') ->
  exists tr,
    trace s' = trace s ++ tr
    /\ reader_trace fd 0 tr
    /\ Z.of_nat (List.length (delivered tr)) <= sizeof_inotify_event
    /\ match res with
       | OutOfFuel => True
       | Done (status, ie) =>
           List.length ie = Z.to_nat sizeof_inotify_event
           /\ (status = 0 ->
               Z.of_nat (List.length (delivered tr)) = sizeof_inotify_event
               /\ ie = map Some (delivered tr))
       end.
Proof.
  intros Hos Hout Hrun. unfold read_inotify_event in Hrun.
  destruct (read_loop_inv os fd Hos fuel 0 out s res s') as (tr & Htr & Hshape & Hacc & Hres);
    [unfold sizeof_inotify_event; lia|assumption|assumption|].
  exists tr. repeat split; try assumption; try lia.
  destruct res as [[status ie]|]; [|exact I].
  destruct Hres as (Hlen & Hok & _). split; [assumption|].
  intros Hst. destruct (Hok Hst) as (Hsum & Hie). split; [lia|exact Hie].
Qed.

(** C1: on a channel whose every read delivers at least one byte, the
    reader, given sizeof(struct inotify_event)+1 iterations or more,
    returns success; its calls are reads at the advancing offset for the
    missing bytes, they delivered sizeof(struct inotify_event) bytes in
    all, and the record is made of exactly these bytes, none left
    indeterminate.  In [handle_inotify_event] the signal is sent after these
    reads, once the whole record is there. *)
Theorem read_inotify_event_assembles_full_record fd pid rfuel out s :
  lively os fd ->
  List.length out = Z.to_nat sizeof_inotify_event ->
  (Z.to_nat sizeof_inotify_event < rfuel)%nat ->
  (exists ie s1 tr,
      read_inotify_event os rfuel fd out s = (Done (0, ie), s1)
      /\ trace s1 = trace s ++ tr
      /\ reader_trace fd 0 tr
      /\ Z.of_nat (List.length (delivered tr)) = sizeof_inotify_event
      /\ ie = map Some (delivered tr))
  /\ (exists status s2 tr rk,
         handle_inotify_event os rfuel fd pid s = (Done status, s2)
         /\ trace s2 = trace s ++ tr ++ [(kill pid SIGUSR1, rk)]
         /\ reader_trace fd 0 tr
         /\ Z.of_nat (List.length (delivered tr)) = sizeof_inotify_event).
Proof.
  intros Hos Hout Hfuel. split.
  - exact (read_inotify_event_lively fd rfuel out s Hos Hout Hfuel).
  - destruct (handle_lively fd pid rfuel s Hos Hfuel)
      as (s1 & tr & Hrun & Htr & Hshape & Hsum).
    eexists _, _, tr, _. split; [exact Hrun|].
    rewrite trace_after, Htr, app_assoc. now repeat split.
Qed.

(** C5: whenever the reader returns success, whatever the record holds,
    [handle_inotify_event] goes on with exactly one call, [kill(pid,
    SIGUSR1)], and returns: one notification attempt per record read,
    the same for every record. *)
Theorem handle_inotify_event_notifies_every_record fd pid rfuel s ie s1 :
  read_inotify_event os rfuel fd ie_indeterminate s = (Done (0, ie), s1) ->
  exists status s2,
    handle_inotify_event os rfuel fd pid s = (Done status, s2)
    /\ s2 = after os s1 (kill pid SIGUSR1)
    /\ trace s2 = trace s1 ++ [(kill pid SIGUSR1, answer os s1 (kill pid SIGUSR1))]
    /\ notifications (trace s2) = notifications (trace s1) ++ [(pid, SIGUSR1)]
    /\ status = (if ret (answer os s1 (kill pid SIGUSR1)) =? 0 then 0 else errno s2).
Proof.
  intros Hrun. rewrite handle_run, Hrun. cbn [Z.eqb negb]. cbv zeta.
  eexists _, _. split; [reflexivity|].
  split; [reflexivity|]. split; [apply trace_after|].
  split; [rewrite trace_after, notifications_app; reflexivity|].
  destruct (ret (answer os s1 (kill pid SIGUSR1)) =? 0); reflexivity.
Qed.

End Reader.

(** ** Failures in a trace *)

Ltac same_trace :=
  repeat (rewrite <- ?app_assoc; cbn [app]); reflexivity.

Lemma fatal_reports_error e : fatal e = true -> reports_error e = true.
Proof. destruct e as [[] r]; cbn; congruence. Qed.

Lemma quiet_app tr1 tr2 : quiet tr1 -> quiet tr2 -> quiet (tr1 ++ tr2).
Proof. intros H1 H2. apply Forall_app. now split. Qed.

Lemma quiet_one e : fatal e = false -> quiet [e].
Proof. intros H. now constructor. Qed.

(** Where the only failure of a trace can be its last event, a failed
    event has nothing after it. *)
Lemma failure_is_last (Q : event -> Prop) tr :
  quiet tr \/ (exists pre e, tr = pre ++ [e] /\ quiet pre /\ Q e) ->
  forall pre e post, tr = pre ++ e :: post -> fatal e = true -> post = [] /\ Q e.
Proof.
  intros [Hq|(pre0 & e0 & -> & Hq & HQ)] pre e post Heq Hfatal.
  - subst tr. apply Forall_app in Hq as [_ Hq]. inversion Hq; congruence.
  - destruct (exists_last (l := e :: post)) as (post0 & x & Hlast); [discriminate|].
    rewrite Hlast, app_assoc in Heq. apply app_inj_tail in Heq as [Hpre ->].
    destruct post0 as [|y post0].
    + injection Hlast as -> ->. now split.
    + injection Hlast as -> ->. subst pre0.
      apply Forall_app in Hq as [_ Hq]. inversion Hq; congruence.
Qed.

(** ** The event loop *)

Section Loop.

Context {W : Type}.
Variable os : W -> syscall -> reply * W.

(** The trace of the reader's loop, whatever the system answers: reads
    only, none failed unless it is the last, and then its error number is
    the status. *)
Lemma read_loop_trace fd fuel :
  forall len buf s res s',
    read_loop os fuel fd len buf s = (res, s') ->
    exists tr,
      trace s' = trace s ++ tr
      /\ ((quiet tr /\ forall st b, res = Done (st, b) -> st = 0)
          \/ (exists pre e,
                 tr = pre ++ [e] /\ quiet pre /\ fatal e = true
                 /\ (exists w, snd e = fst (os w (fst e)))
                 /\ exists b, res = Done (err (snd e), b))).
Proof.
  induction fuel as [|fuel IH]; intros len buf s res s' Hrun.
  - apply pair_equal_spec in Hrun as [<- <-]. exists []. rewrite app_nil_r.
    split; [reflexivity|]. left. split; [constructor|discriminate].
  - rewrite read_loop_unfold in Hrun.
    destruct (negb (C.size_t len =? sizeof_inotify_event)).
    + unfold bind at 1 in Hrun. rewrite sys_run in Hrun.
      set (c := read fd len (C.size_t (sizeof_inotify_event - len))) in *.
      destruct (Z.ltb_spec (ret (answer os s c)) 0) as [Hneg|Hpos].
      * unfold bind, get_errno, Return in Hrun.
        rewrite errno_after_failure in Hrun by assumption.
        apply pair_equal_spec in Hrun as [<- <-].
        exists [(c, answer os s c)]. split; [apply trace_after|].
        right. exists [], (c, answer os s c).
        repeat split; [constructor|now apply Z.ltb_lt|now exists (world s)|now exists buf].
      * apply IH in Hrun as (tr & Htr & Hcases).
        exists ((c, answer os s c) :: tr).
        split; [rewrite Htr, trace_after; now rewrite <- app_assoc|].
        assert (Hc : fatal (c, answer os s c) = false) by now apply Z.ltb_ge.
        destruct Hcases as [[Hq Hst]|(pre & e & -> & Hq & He)].
        -- left. split; [now constructor|assumption].
        -- right. exists ((c, answer os s c) :: pre), e.
           split; [reflexivity|]. split; [now constructor|assumption].
    + apply pair_equal_spec in Hrun as [<- <-]. exists []. rewrite app_nil_r.
      split; [reflexivity|]. left. split; [constructor|]. intros st b E. congruence.
Qed.

Lemma handle_trace fd pid rfuel s res s' :
  handle_inotify_event os rfuel fd pid s = (res, s') ->
  exists tr, trace s' = trace s ++ tr.
Proof.
  rewrite handle_run. unfold read_inotify_event.
  destruct (read_loop os rfuel fd 0 ie_indeterminate s) as [[[st ie]|] s1] eqn:Hread;
    apply read_loop_trace in Hread as (tr & Htr & _).
  - destruct (negb (st =? 0)); intros Hrun; apply pair_equal_spec in Hrun as [_ <-].
    + now exists tr.
    + eexists. rewrite trace_after, Htr, <- app_assoc. reflexivity.
  - intros Hrun. apply pair_equal_spec in Hrun as [_ <-]. now exists tr.
Qed.

(** [handle_inotify_event] returns a non-zero status only from a call
    that reported an error. *)
Lemma handle_error fd pid rfuel s st s' :
  handle_inotify_event os rfuel fd pid s = (Done st, s') ->
  st <> 0 ->
  exists pre e, trace s' = trace s ++ pre ++ [e] /\ reports_error e = true.
Proof.
  rewrite handle_run. unfold read_inotify_event.
  destruct (read_loop os rfuel fd 0 ie_indeterminate s) as [[[st0 ie]|] s1] eqn:Hread;
    [|discriminate].
  apply read_loop_trace in Hread as (tr & Htr & Hcases).
  destruct (Z.eqb_spec st0 0) as [->|Hst0]; cbn [negb]; cbv zeta.
  - intros Hrun Hst. apply pair_equal_spec in Hrun as [Hres <-].
    injection Hres as Hres.
    destruct (Z.eqb_spec (ret (answer os s1 (kill pid SIGUSR1))) 0) as [E|E];
      cbn [negb] in Hres; [congruence|].
    exists tr, (kill pid SIGUSR1, answer os s1 (kill pid SIGUSR1)).
    split; [rewrite trace_after, Htr, <- app_assoc; reflexivity|].
    cbn. now apply negb_true_iff, Z.eqb_neq.
  - intros Hrun _. apply pair_equal_spec in Hrun as [Hres <-].
    injection Hres as <-.
    destruct Hcases as [[_ Hzero]|(pre & e & -> & _ & He & _)].
    + elim Hst0. eapply Hzero. reflexivity.
    + exists pre, e. split; [assumption|]. now apply fatal_reports_error.
Qed.

Lemma monitor_loop_error fd pid rfuel fuel :
  forall s st s',
    monitor_loop os fuel rfuel fd pid s = (Done st, s') ->
    exists pre e, trace s' = trace s ++ pre ++ [e] /\ reports_error e = true.
Proof.
  induction fuel as [|fuel IH]; intros s st s' Hrun; [discriminate|].
  rewrite monitor_loop_step in Hrun. cbv zeta in Hrun.
  set (c := poll fd POLLIN 1 (-1)) in *.
  destruct (Z.ltb_spec (ret (answer os s c)) 0) as [Hneg|Hpos].
  - apply pair_equal_spec in Hrun as [_ <-].
    exists [], (c, answer os s c). split; [apply trace_after|].
    cbn. now apply Z.ltb_lt.
  - destruct (handle_inotify_event os rfuel fd pid (after os s c))
      as [[st1|] s2] eqn:Hhandle; [|discriminate].
    destruct (Z.eqb_spec st1 0) as [->|Hst1]; cbn [negb] in Hrun.
    + apply handle_trace in Hhandle as (tr & Htr).
      apply IH in Hrun as (pre & e & Hpre & He).
      exists ((c, answer os s c) :: tr ++ pre), e. split; [|assumption].
      rewrite Hpre, Htr, trace_after. same_trace.
    + apply pair_equal_spec in Hrun as [_ <-].
      apply handle_error in Hhandle as (pre & e & Hpre & He); [|assumption].
      exists ((c, answer os s c) :: pre), e. split; [|assumption].
      rewrite Hpre, trace_after. same_trace.
Qed.

(** C7: in a run of [monitor_file] in which no wait, no read and no signal
    delivery reported an error, the loop has not returned, whatever the
    number of iterations allowed; when it has returned, the last call it
    made reported an error. *)
Theorem monitor_file_returns_only_on_error fd pid fuel rfuel s res s' tr :
  monitor_file os fuel rfuel fd pid s = (res, s') ->
  trace s' = trace s ++ tr ->
  (Forall (fun e => reports_error e = false) tr -> res = OutOfFuel)
  /\ (forall status, res = Done status ->
      exists pre e, tr = pre ++ [e] /\ reports_error e = true).
Proof.
  intros Hrun Htr.
  assert (Hret : forall status, res = Done status ->
            exists pre e, tr = pre ++ [e] /\ reports_error e = true).
  { intros status ->. apply monitor_loop_error in Hrun as (pre & e & Hpre & He).
    exists pre, e. split; [|assumption].
    rewrite Htr in Hpre. now apply app_inv_head in Hpre. }
  split; [|exact Hret].
  intros Hall. destruct res as [status|]; [|reflexivity].
  destruct (Hret status eq_refl) as (pre & e & -> & He).
  apply Forall_app in Hall as [_ Hall]. inversion Hall; congruence.
Qed.

(** Under [posix_errno], a failed read ends [handle_inotify_event] with
    its error number. *)
Lemma handle_stops_at_failure (Herr : posix_errno os) fd pid rfuel s res s' :
  handle_inotify_event os rfuel fd pid s = (res, s') ->
  exists tr,
    trace s' = trace s ++ tr
    /\ (quiet tr
        \/ (exists pre e,
               tr = pre ++ [e] /\ quiet pre /\ fatal e = true
               /\ err (snd e) <> 0 /\ res = Done (err (snd e)))).
Proof.
  rewrite handle_run. unfold read_inotify_event.
  destruct (read_loop os rfuel fd 0 ie_indeterminate s) as [[[st ie]|] s1] eqn:Hread;
    apply read_loop_trace in Hread as (tr & Htr & Hcases).
  - destruct Hcases as [[Hq Hzero]|(pre & [c r] & -> & Hq & He & (w & Hw) & b & Hres)].
    + rewrite (Hzero st ie eq_refl). cbn [Z.eqb negb]. cbv zeta.
      intros Hrun. apply pair_equal_spec in Hrun as [_ <-].
      exists (tr ++ [(kill pid SIGUSR1, answer os s1 (kill pid SIGUSR1))]).
      split; [rewrite trace_after, Htr; same_trace|].
      left. apply quiet_app; [assumption|]. now apply quiet_one.
    + injection Hres as -> _. cbn [snd fst] in *.
      assert (Hnz : err r <> 0).
      { rewrite Hw. apply Herr. rewrite <- Hw.
        destruct c; cbn in He; try discriminate; now apply Z.ltb_lt. }
      destruct (Z.eqb_spec (err r) 0) as [E|_]; [contradiction|]. cbn [negb].
      intros Hrun. apply pair_equal_spec in Hrun as [<- <-].
      exists (pre ++ [(c, r)]). split; [assumption|].
      right. exists pre, (c, r). now repeat split.
  - intros Hrun. apply pair_equal_spec in Hrun as [<- <-].
    exists tr. split; [assumption|]. left.
    destruct Hcases as [[Hq _]|(pre & e & _ & _ & _ & _ & b & Hres)];
      [assumption|discriminate].
Qed.

Lemma monitor_loop_stops_at_failure (Herr : posix_errno os) fd pid rfuel fuel :
  forall s res s',
    monitor_loop os fuel rfuel fd pid s = (res, s') ->
    exists tr,
      trace s' = trace s ++ tr
      /\ (quiet tr
          \/ (exists pre e,
                 tr = pre ++ [e] /\ quiet pre
                 /\ res = Done (err (snd e)))).
Proof.
  induction fuel as [|fuel IH]; intros s res s' Hrun.
  - apply pair_equal_spec in Hrun as [<- <-]. exists []. rewrite app_nil_r.
    split; [reflexivity|]. left. constructor.
  - rewrite monitor_loop_step in Hrun. cbv zeta in Hrun.
    set (c := poll fd POLLIN 1 (-1)) in *.
    destruct (Z.ltb_spec (ret (answer os s c)) 0) as [Hneg|Hpos].
    + rewrite errno_after_failure in Hrun by assumption.
      apply pair_equal_spec in Hrun as [<- <-].
      exists [(c, answer os s c)]. split; [apply trace_after|].
      right. exists [], (c, answer os s c). repeat split. constructor.
    + assert (Hc : fatal (c, answer os s c) = false) by now apply Z.ltb_ge.
      destruct (handle_inotify_event os rfuel fd pid (after os s c))
        as [[st1|] s2] eqn:Hhandle;
        apply (handle_stops_at_failure Herr) in Hhandle as (tr1 & Htr1 & Hcases).
      * destruct (Z.eqb_spec st1 0) as [->|Hst1]; cbn [negb] in Hrun.
        -- destruct Hcases as [Hq1|(pre & e & _ & _ & _ & Hnz & Hres)];
             [|congruence].
           apply IH in Hrun as (tr2 & Htr2 & Hcases2).
           exists ((c, answer os s c) :: tr1 ++ tr2).
           split; [rewrite Htr2, Htr1, trace_after; same_trace|].
           destruct Hcases2 as [Hq2|(pre & e & -> & Hq2 & Hres)].
           ++ left. constructor; [assumption|]. now apply quiet_app.
           ++ right. exists ((c, answer os s c) :: tr1 ++ pre), e.
              split; [same_trace|]. split; [|assumption].
              constructor; [assumption|]. now apply quiet_app.
        -- apply pair_equal_spec in Hrun as [<- <-].
           exists ((c, answer os s c) :: tr1).
           split; [rewrite Htr1, trace_after; same_trace|].
           destruct Hcases as [Hq1|(pre & e & -> & Hq1 & _ & _ & Hres)].
           ++ left. now constructor.
           ++ right. exists ((c, answer os s c) :: pre), e.
              split; [reflexivity|]. split; [now constructor|assumption].
      * apply pair_equal_spec in Hrun as [<- <-].
        exists ((c, answer os s c) :: tr1).
        split; [rewrite Htr1, trace_after; same_trace|].
        destruct Hcases as [Hq1|(pre & e & _ & _ & _ & _ & Hres)];
          [|discriminate].
        left. now constructor.
Qed.

Lemma block_notifications fd pid rp tr rk :
  reader_trace fd 0 tr ->
  notifications ((poll fd POLLIN 1 (-1), rp) :: tr ++ [(kill pid SIGUSR1, rk)])
  = [(pid, SIGUSR1)].
Proof.
  intros Hshape. cbn [notifications]. rewrite notifications_app.
  now rewrite (reader_trace_no_notification _ _ _ Hshape).
Qed.

Lemma block_delivered fd pid rp tr rk :
  delivered ((poll fd POLLIN 1 (-1), rp) :: tr ++ [(kill pid SIGUSR1, rk)])
  = delivered tr.
Proof. cbn [delivered]. rewrite delivered_app. cbn [delivered]. apply app_nil_r. Qed.

(** C4: on a system where the wait, the reads and the signal never fail
    and every read delivers at least one byte, [n] turns of the event loop
    are [n] blocks of calls, each one wait, then the reads of one whole
    record of sizeof(struct inotify_event) bytes, then one signal to
    [pid]: [n] records drained, [n] notification attempts, in that order,
    every record complete before the next wait; and the loop has not
    returned. *)
Theorem event_loop_notifies_once_per_record fd pid rfuel :
  healthy_system os fd pid ->
  (Z.to_nat sizeof_inotify_event < rfuel)%nat ->
  forall n s,
  exists s' blocks,
    monitor_file os n rfuel fd pid s = (OutOfFuel, s')
    /\ trace s' = trace s ++ List.concat blocks
    /\ List.length blocks = n
    /\ Forall (iteration fd pid) blocks
    /\ notifications (List.concat blocks) = repeat (pid, SIGUSR1) n
    /\ Z.of_nat (List.length (delivered (List.concat blocks)))
       = sizeof_inotify_event * Z.of_nat n.
Proof.
  intros [Hlively Hcalls] Hfuel. unfold monitor_file.
  induction n as [|n IH]; intros s.
  - exists s, []. cbn [List.concat]. rewrite app_nil_r. repeat split. constructor.
  - rewrite monitor_loop_step. cbv zeta.
    set (c := poll fd POLLIN 1 (-1)).
    destruct (Hcalls (world s)) as [Hpoll _]. fold c in Hpoll.
    change (fst (os (world s) c)) with (answer os s c) in Hpoll.
    destruct (Z.ltb_spec (ret (answer os s c)) 0) as [Hneg|_]; [lia|].
    destruct (handle_lively os fd pid rfuel (after os s c) Hlively Hfuel)
      as (s1 & tr & Hrun & Htr & Hshape & Hsum).
    rewrite Hrun.
    destruct (Hcalls (world s1)) as [_ Hkill].
    change (fst (os (world s1) (kill pid SIGUSR1)))
      with (answer os s1 (kill pid SIGUSR1)) in Hkill.
    rewrite Hkill. cbn [Z.eqb negb].
    destruct (IH (after os s1 (kill pid SIGUSR1)))
      as (s' & blocks & Hloop & Htrace & Hlen & Hblocks & Hnotif & Hbytes).
    exists s',
      (((c, answer os s c) :: tr ++ [(kill pid SIGUSR1, answer os s1 (kill pid SIGUSR1))])
         :: blocks).
    split; [exact Hloop|].
    split; [rewrite Htrace, trace_after, Htr, trace_after; cbn [List.concat]; same_trace|].
    split; [cbn [List.length]; now rewrite Hlen|].
    split.
    { constructor; [|assumption].
      exists (answer os s c), tr, (answer os s1 (kill pid SIGUSR1)).
      now repeat split. }
    cbn [List.concat]. rewrite notifications_app, delivered_app, length_app.
    unfold c. rewrite (block_notifications _ _ _ _ _ Hshape), block_delivered, Hnotif.
    split; [reflexivity|]. lia.
Qed.

End Loop.

(** ** The process *)

Lemma int_range z : - 2 ^ 31 <= C.int z < 2 ^ 31.
Proof.
  unfold C.int, C.wrap_signed. change (32 - 1) with 31.
  pose proof (Z.mod_pos_bound (z + 2 ^ 31) (2 ^ 32)). lia.
Qed.

(** Text that starts with neither white space, nor a sign, nor a digit
    converts to 0. *)
Lemma atoi_without_digits c rest :
  Libc.isspace c = false ->
  Libc.isdigit c = false ->
  c <> "-"%char ->
  c <> "+"%char ->
  Libc.atoi (String c rest) = 0.
Proof.
  intros Hspace Hdigit Hminus Hplus.
  unfold Libc.atoi, Libc.strtol, Libc.number. cbn [Libc.skip_space]. rewrite Hspace.
  assert (Hv : Libc.digits 0 (String c rest) = 0)
    by (cbn [Libc.digits]; now rewrite Hdigit).
  destruct (ascii_dec c "-") as [E|_]; [contradiction|].
  destruct (ascii_dec c "+") as [E|_]; [contradiction|].
  destruct c as [[] [] [] [] [] [] [] []];
    try (elim Hminus; reflexivity); try (elim Hplus; reflexivity);
    rewrite Hv; reflexivity.
Qed.

Section Process.

Context {W : Type}.
Variable os : W -> syscall -> reply * W.

(** The status [monitor_file] returns is the value of [errno]. *)
Lemma read_loop_status_is_errno fd fuel :
  forall len buf s st b s',
    read_loop os fuel fd len buf s = (Done (st, b), s') ->
    st <> 0 -> st = errno s'.
Proof.
  induction fuel as [|fuel IH]; intros len buf s st b s' Hrun Hst; [discriminate|].
  rewrite read_loop_unfold in Hrun.
  destruct (negb (C.size_t len =? sizeof_inotify_event)).
  - unfold bind at 1 in Hrun. rewrite sys_run in Hrun.
    destruct (ret (answer os s _) <? 0).
    + unfold bind, get_errno, Return in Hrun.
      apply pair_equal_spec in Hrun as [Hres <-]. congruence.
    + eapply IH; eassumption.
  - apply pair_equal_spec in Hrun as [Hres _]. congruence.
Qed.

Lemma monitor_file_status_is_errno fd pid rfuel fuel :
  forall s st s',
    monitor_file os fuel rfuel fd pid s = (Done st, s') -> st = errno s'.
Proof.
  unfold monitor_file.
  induction fuel as [|fuel IH]; intros s st s' Hrun; [discriminate|].
  rewrite monitor_loop_step in Hrun. cbv zeta in Hrun.
  destruct (ret (answer os s _) <? 0).
  - apply pair_equal_spec in Hrun as [Hres <-]. congruence.
  - rewrite handle_run in Hrun. unfold read_inotify_event in Hrun.
    destruct (read_loop os rfuel fd 0 ie_indeterminate _) as [[[st0 ie]|] s1] eqn:Hread;
      [|discriminate].
    destruct (Z.eqb_spec st0 0) as [->|Hst0]; cbn [negb] in Hrun; cbv zeta in Hrun.
    + destruct (Z.eqb_spec (ret (answer os s1 (kill pid SIGUSR1))) 0) as [E|E];
        cbn [negb Z.eqb] in Hrun.
      * eapply IH; eassumption.
      * destruct (Z.eqb_spec (errno (after os s1 (kill pid SIGUSR1))) 0) as [E0|E0];
          cbn [negb] in Hrun.
        -- eapply IH; eassumption.
        -- apply pair_equal_spec in Hrun as [Hres <-]. congruence.
    + rewrite (proj2 (Z.eqb_neq st0 0) Hst0) in Hrun. cbn [negb] in Hrun.
      apply pair_equal_spec in Hrun as [Hres <-].
      injection Hres as <-. eapply read_loop_status_is_errno; eassumption.
Qed.

(** When [inotify_init] returns -1, [main] returns 1 whatever the error
    number the call stored. *)
Lemma main_status_after_failed_init fuel rfuel prog path pidstr s :
  ret (answer os s inotify_init) = -1 ->
  fst (main os fuel rfuel [prog; path; pidstr] s) = Done 1.
Proof.
  intros Hinit. rewrite main_run, create_file_monitor_run. cbv zeta.
  rewrite answer_after_atoi, Hinit. reflexivity.
Qed.

(** C6: on a command line of two arguments, when [inotify_init] fails
    [main] returns at once and that call is the only one made, no
    registration and no wait; when it succeeds and [inotify_add_watch]
    fails, [main] returns at once and these two calls are the only ones
    made, no wait. *)
Theorem setup_failure_ends_the_process fuel rfuel prog path pidstr s :
  let r1 := answer os s inotify_init in
  let s1 := after os s inotify_init in
  let c2 := inotify_add_watch (ret r1) path (Z.lor IN_MODIFY IN_CREATE) in
  let r2 := answer os s1 c2 in
  (ret r1 < 0 ->
   main os fuel rfuel [prog; path; pidstr] s = (Done (C.int (- ret r1)), s1)
   /\ trace s1 = trace s ++ [(inotify_init, r1)])
  /\ (0 <= ret r1 -> ret r2 < 0 ->
      main os fuel rfuel [prog; path; pidstr] s
      = (Done (C.int (- ret r2)), after os s1 c2)
      /\ trace (after os s1 c2) = trace s ++ [(inotify_init, r1); (c2, r2)]).
Proof.
  cbv zeta. rewrite main_run, create_file_monitor_run. cbv zeta.
  rewrite !answer_after_atoi, !answer_after_atoi_call. split.
  - intros Hinit. rewrite (after_atoi_failed os pidstr s inotify_init Hinit).
    apply Z.ltb_lt in Hinit. rewrite Hinit, Hinit.
    split; [reflexivity|apply trace_after].
  - intros Hinit Hwatch.
    rewrite (after_atoi_failed_second os pidstr s inotify_init _ Hwatch).
    apply Z.ltb_ge in Hinit. apply Z.ltb_lt in Hwatch.
    rewrite Hinit, Hwatch, Hwatch.
    split; [reflexivity|]. rewrite !trace_after. same_trace.
Qed.

(** C9: with exactly two arguments [parse_argv] returns 0 whatever the
    text of the second one: it makes no call and prints nothing, the state
    it leaves differs from the one it found at most in [errno], where
    [atoi] stored [ERANGE] if the number in the text does not fit a [long];
    the process identifier it stores is [atoi] of that text, always a value
    of type [int]; and [main] goes on to set up the watch and runs the
    event loop with that value as the target. *)
Theorem parse_argv_accepts_any_pid_text fuel rfuel prog path pidstr s :
  let s0 := after_atoi pidstr s in
  parse_argv os 3 [prog; path; pidstr] s
  = (Done (0, Some (path, Libc.atoi pidstr)), s0)
  /\ world s0 = world s
  /\ trace s0 = trace s
  /\ errno s0 = (if Libc.out_of_range pidstr then ERANGE else errno s)
  /\ - 2 ^ 31 <= Libc.atoi pidstr < 2 ^ 31
  /\ main os fuel rfuel [prog; path; pidstr] s
     = match create_file_monitor os path s0 with
       | (Done fd, s1) =>
           if fd <? 0 then (Done (C.int (- fd)), s1)
           else monitor_file os fuel rfuel fd (Libc.atoi pidstr) s1
       | (OutOfFuel, s1) => (OutOfFuel, s1)
       end.
Proof.
  cbv zeta. split.
  { unfold parse_argv. cbn [Z.eqb Pos.eqb negb nth].
    unfold bind. rewrite atoi_run. reflexivity. }
  split; [apply world_after_atoi|]. split; [apply trace_after_atoi|].
  split; [unfold after_atoi; destruct (Libc.out_of_range pidstr); reflexivity|].
  split; [apply int_range|apply main_run].
Qed.

(** The set-up and the loop: the calls before the event loop are neither
    waits nor reads. *)
Lemma setup_stops_at_failure (Herr : posix_errno os) fuel rfuel path pid s res s' :
  match create_file_monitor os path s with
  | (Done fd, s1) =>
      if fd <? 0 then (Done (C.int (- fd)), s1)
      else monitor_file os fuel rfuel fd pid s1
  | (OutOfFuel, s1) => (OutOfFuel, s1)
  end = (res, s') ->
  exists tr,
    trace s' = trace s ++ tr
    /\ (quiet tr
        \/ (exists pre e,
               tr = pre ++ [e] /\ quiet pre /\ res = Done (err (snd e)))).
Proof.
  rewrite create_file_monitor_run. cbv zeta.
  set (c1 := inotify_init).
  set (c2 := inotify_add_watch (ret (answer os s c1)) _ _).
  assert (Hsetup : forall fd,
    monitor_file os fuel rfuel fd pid (after os (after os s c1) c2) = (res, s') ->
    exists tr,
      trace s' = trace s ++ tr
      /\ (quiet tr
          \/ (exists pre e,
                 tr = pre ++ [e] /\ quiet pre /\ res = Done (err (snd e))))).
  { intros fd Hrun.
    apply (monitor_loop_stops_at_failure os Herr) in Hrun as (tr & Htr & Hcases).
    exists ((c1, answer os s c1) :: (c2, answer os (after os s c1) c2) :: tr).
    split; [rewrite Htr, !trace_after; same_trace|].
    destruct Hcases as [Hq|(pre & e & -> & Hq & Hres)].
    - left. repeat constructor. exact Hq.
    - right. exists ((c1, answer os s c1) :: (c2, answer os (after os s c1) c2) :: pre), e.
      split; [reflexivity|]. split; [|assumption]. repeat constructor. exact Hq. }
  destruct (ret (answer os s c1) <? 0) eqn:Hinit.
  - rewrite Hinit. intros Hrun.
    apply pair_equal_spec in Hrun as [_ <-].
    eexists. split; [apply trace_after|]. left. now apply quiet_one.
  - destruct (ret (answer os (after os s c1) c2) <? 0) eqn:Hwatch.
    + rewrite Hwatch. intros Hrun.
      apply pair_equal_spec in Hrun as [_ <-].
      eexists. split; [rewrite !trace_after; same_trace|].
      left. repeat constructor.
    + rewrite Hinit. apply Hsetup.
Qed.

(** [main] on any command line. *)
Lemma main_stops_at_failure (Herr : posix_errno os) fuel rfuel argv s res s' :
  main os fuel rfuel argv s = (res, s') ->
  exists tr,
    trace s' = trace s ++ tr
    /\ (quiet tr
        \/ (exists pre e,
               tr = pre ++ [e] /\ quiet pre /\ res = Done (err (snd e)))).
Proof.
  destruct (Nat.eq_dec (List.length argv) 3) as [Hargc|Hargc].
  - rewrite (main_run_args os fuel rfuel argv s Hargc). intros Hrun.
    apply (setup_stops_at_failure Herr) in Hrun as (tr & Htr & Hcases).
    exists tr. rewrite trace_after_atoi in Htr. now split.
  - unfold main, parse_argv.
    destruct (Z.eqb_spec (Z.of_nat (List.length argv)) 3) as [E|_]; [lia|].
    cbn [negb]. unfold usage, bind, Return. rewrite sys_run. cbn [Z.eqb negb EINVAL].
    intros Hrun. apply pair_equal_spec in Hrun as [_ <-].
    eexists. split; [apply trace_after|]. left. now apply quiet_one.
Qed.

(** C8: where failing calls store a non-zero error number, a wait or a
    read that failed (interrupted or not) is the last call of the run of
    [monitor_file], and of the run of [main]: nothing is retried after it,
    and the loop, and so the process, has returned the error number that
    call stored. *)
Theorem failed_wait_or_read_is_terminal fd pid fuel rfuel argv s res s' resm sm :
  posix_errno os ->
  monitor_file os fuel rfuel fd pid s = (res, s') ->
  main os fuel rfuel argv s = (resm, sm) ->
  (exists tr,
      trace s' = trace s ++ tr
      /\ forall pre e post,
           tr = pre ++ e :: post ->
           fatal e = true ->
           post = [] /\ res = Done (err (snd e)))
  /\ (exists tr,
         trace sm = trace s ++ tr
         /\ forall pre e post,
              tr = pre ++ e :: post ->
              fatal e = true ->
              post = [] /\ resm = Done (err (snd e))).
Proof.
  intros Herr Hloop Hmain. split.
  - apply (monitor_loop_stops_at_failure os Herr) in Hloop as (tr & Htr & Hcases).
    exists tr. split; [assumption|].
    apply (failure_is_last (fun e => res = Done (err (snd e)))). exact Hcases.
  - apply (main_stops_at_failure Herr) in Hmain as (tr & Htr & Hcases).
    exists tr. split; [assumption|].
    apply (failure_is_last (fun e => resm = Done (err (snd e)))). exact Hcases.
Qed.

End Process.

(** ** A channel at end of stream *)

Section EndOfStream.

Context {W : Type}.
Variable os : W -> syscall -> reply * W.
Variable fd : Z.

(** [at_end]: a set of states of the system that it does not leave, in
    which every [read] on [fd] returns 0. *)
Variable at_end : W -> Prop.
Hypothesis at_end_read :
  forall w off count,
    at_end w ->
    ret (fst (os w (read fd off count))) = 0
    /\ at_end (snd (os w (read fd off count))).

(** With the record incomplete, the reader's loop calls [read] at every
    iteration and does not return. *)
Lemma read_loop_end_of_stream fuel :
  forall len buf s,
    0 <= len < sizeof_inotify_event ->
    at_end (world s) ->
    exists s',
      read_loop os fuel fd len buf s = (OutOfFuel, s')
      /\ List.length (trace s') = (List.length (trace s) + fuel)%nat.
Proof.
  induction fuel as [|fuel IH]; intros len buf s Hlen Hend.
  - exists s. split; [reflexivity|lia].
  - rewrite read_loop_step by assumption. cbv zeta.
    destruct (at_end_read (world s) len (sizeof_inotify_event - len) Hend)
      as (Hzero & Hend').
    change (fst (os (world s) (read fd len (sizeof_inotify_event - len))))
      with (answer os s (read fd len (sizeof_inotify_event - len))) in Hzero.
    rewrite Hzero. cbn [Z.ltb Z.compare]. rewrite Z.add_0_r.
    rewrite ssize_t_small by (unfold sizeof_inotify_event in *; lia).
    destruct (IH len
                (write_at len
                   (data (answer os s (read fd len (sizeof_inotify_event - len)))) buf)
                (after os s (read fd len (sizeof_inotify_event - len))) Hlen Hend')
      as (s' & Hrun & Htrace).
    exists s'. split; [exact Hrun|].
    rewrite Htrace, trace_after, length_app. cbn [List.length]. lia.
Qed.

End EndOfStream.

(** ** Scenarios on the test doubles *)

Section Scenarios.

Import TestDouble.

Lemma healthy_lively chunk fd : 1 <= chunk -> lively (constant (healthy chunk)) fd.
Proof.
  intros Hchunk w off count Hcount. cbn. unfold zeros. rewrite repeat_length. lia.
Qed.

Lemma healthy_healthy_system chunk fd pid :
  1 <= chunk -> healthy_system (constant (healthy chunk)) fd pid.
Proof.
  intros Hchunk. split; [now apply healthy_lively|].
  intros w. cbn. lia.
Qed.

Lemma interrupted_posix_errno k : posix_errno (timed (interrupted_at k)).
Proof.
  intros n c. cbn. unfold interrupted_at.
  destruct (Nat.eqb n k); [discriminate|].
  destruct c; cbn; try lia.
Qed.

(** C2: [inotify_init] fails with [EMFILE] (24), and in a second run
    [inotify_add_watch] fails with [ENOENT] (2): in both [main] returns 1,
    the negated result of the failed call, while [errno] holds the error
    number of that call. *)
Theorem setup_failure_status_is_not_errno :
  (exists s',
      main (scripted (healthy 5)) 1 17 argv0 (boot [Reply (-1) EMFILE []])
      = (Done 1, s')
      /\ errno s' = EMFILE
      /\ trace s' = [(inotify_init, Reply (-1) EMFILE [])])
  /\ (exists s',
         main (scripted (healthy 5)) 1 17 argv0
           (boot [Reply 3 0 []; Reply (-1) ENOENT []])
         = (Done 1, s')
         /\ errno s' = ENOENT
         /\ List.length (trace s') = 2%nat).
Proof.
  split; eexists; (split; [vm_compute; reflexivity|]); split; reflexivity.
Qed.

(** C3: the channel delivers 4 bytes of a record and is then at end of
    stream, every further [read] returning 0: whatever the number of
    iterations allowed, the reader has not returned, and it has made one
    [read] call per iteration. *)
Theorem reader_never_returns_at_end_of_stream :
  forall fuel,
  exists s',
    read_inotify_event (scripted closed) (S fuel) 3 ie_indeterminate
      (boot [Reply 4 0 (zeros 4)])
    = (OutOfFuel, s')
    /\ List.length (trace s') = S fuel.
Proof.
  intros fuel. unfold read_inotify_event.
  rewrite read_loop_step by (unfold sizeof_inotify_event; lia). cbv zeta.
  change (answer (scripted closed) (boot [Reply 4 0 (zeros 4)])
            (read 3 0 (sizeof_inotify_event - 0)))
    with (Reply 4 0 (zeros 4)).
  cbn [ret data Z.ltb Z.compare Z.add].
  rewrite ssize_t_small by lia.
  destruct (read_loop_end_of_stream (scripted closed) 3 (fun w => w = [])) with
    (fuel := fuel) (len := 4) (buf := write_at 0 (zeros 4) ie_indeterminate)
    (s := after (scripted closed) (boot [Reply 4 0 (zeros 4)])
            (read 3 0 (sizeof_inotify_event - 0)))
    as (s' & Hrun & Htrace).
  - intros w off count ->. split; reflexivity.
  - unfold sizeof_inotify_event; lia.
  - reflexivity.
  - exists s'. split; [exact Hrun|]. rewrite Htrace. reflexivity.
Qed.

End Scenarios.

(** ** The theorems at work on the test doubles *)

Section Witnesses.

Import TestDouble.

(** A record read in chunks of 5, 5, 5 and 1 bytes. *)
Lemma read_inotify_event_assembles_full_record_witness :
  let os := constant (healthy 5) in
  lively os 3
  /\ (exists ie s1 tr,
         read_inotify_event os 17 3 ie_indeterminate (boot tt) = (Done (0, ie), s1)
         /\ trace s1 = trace (boot tt) ++ tr
         /\ reader_trace 3 0 tr
         /\ Z.of_nat (List.length (delivered tr)) = sizeof_inotify_event
         /\ ie = map Some (delivered tr))
  /\ (exists status s2 tr rk,
         handle_inotify_event os 17 3 4242 (boot tt) = (Done status, s2)
         /\ trace s2 = trace (boot tt) ++ tr ++ [(kill 4242 SIGUSR1, rk)]
         /\ reader_trace 3 0 tr
         /\ Z.of_nat (List.length (delivered tr)) = sizeof_inotify_event).
Proof.
  intros os.
  assert (Hos : lively os 3) by (apply healthy_lively; lia).
  split; [exact Hos|].
  apply (read_inotify_event_assembles_full_record os 3 4242 17
           ie_indeterminate (boot tt) Hos).
  - reflexivity.
  - vm_compute. lia.
Defined.

Lemma read_inotify_event_stays_in_bounds_witness :
  let os := constant (healthy 5) in
  let run := read_inotify_event os 17 3 ie_indeterminate (boot tt) in
  posix_read os 3
  /\ run = (Done (0, map Some (zeros 16)), snd run)
  /\ exists tr,
      trace (snd run) = trace (boot tt) ++ tr
      /\ reader_trace 3 0 tr
      /\ Z.of_nat (List.length (delivered tr)) <= sizeof_inotify_event
      /\ List.length (map Some (zeros 16)) = Z.to_nat sizeof_inotify_event
      /\ (0 = 0 ->
          Z.of_nat (List.length (delivered tr)) = sizeof_inotify_event
          /\ map Some (zeros 16) = map Some (delivered tr)).
Proof.
  intros os run.
  assert (Hos : posix_read os 3) by (apply lively_posix_read, healthy_lively; lia).
  assert (Hrun : run = (Done (0, map Some (zeros 16)), snd run)) by reflexivity.
  split; [exact Hos|]. split; [exact Hrun|].
  exact (read_inotify_event_stays_in_bounds os 3 17 ie_indeterminate (boot tt)
           (Done (0, map Some (zeros 16))) (snd run) Hos eq_refl Hrun).
Defined.

Lemma handle_inotify_event_notifies_every_record_witness :
  let os := constant (healthy 16) in
  let run := read_inotify_event os 2 3 ie_indeterminate (boot tt) in
  run = (Done (0, map Some (zeros 16)), snd run)
  /\ exists status s2,
      handle_inotify_event os 2 3 4242 (boot tt) = (Done status, s2)
      /\ s2 = after os (snd run) (kill 4242 SIGUSR1)
      /\ trace s2
         = trace (snd run)
             ++ [(kill 4242 SIGUSR1, answer os (snd run) (kill 4242 SIGUSR1))]
      /\ notifications (trace s2) = notifications (trace (snd run)) ++ [(4242, SIGUSR1)]
      /\ status
         = (if ret (answer os (snd run) (kill 4242 SIGUSR1)) =? 0 then 0 else errno s2).
Proof.
  intros os run.
  assert (Hrun : run = (Done (0, map Some (zeros 16)), snd run)) by reflexivity.
  split; [exact Hrun|].
  exact (handle_inotify_event_notifies_every_record os 3 4242 2 (boot tt)
           (map Some (zeros 16)) (snd run) Hrun).
Defined.

(** Three turns of the loop on a system that never fails. *)
Lemma event_loop_notifies_once_per_record_witness :
  let os := constant (healthy 7) in
  healthy_system os 3 4242
  /\ exists s' blocks,
      monitor_file os 3 17 3 4242 (boot tt) = (OutOfFuel, s')
      /\ trace s' = trace (boot tt) ++ List.concat blocks
      /\ List.length blocks = 3%nat
      /\ Forall (iteration 3 4242) blocks
      /\ notifications (List.concat blocks) = repeat (4242, SIGUSR1) 3
      /\ Z.of_nat (List.length (delivered (List.concat blocks)))
         = sizeof_inotify_event * Z.of_nat 3.
Proof.
  intros os.
  assert (Hos : healthy_system os 3 4242) by (apply healthy_healthy_system; lia).
  split; [exact Hos|].
  apply (event_loop_notifies_once_per_record os 3 4242 17 Hos).
  vm_compute. lia.
Defined.

Lemma monitor_file_returns_only_on_error_witness :
  let os := constant (healthy 16) in
  let run := monitor_file os 2 17 3 4242 (boot tt) in
  run = (OutOfFuel, snd run)
  /\ trace (snd run) = trace (boot tt) ++ trace (snd run)
  /\ (Forall (fun e => reports_error e = false) (trace (snd run)) ->
      @OutOfFuel Z = OutOfFuel)
  /\ (forall status, @OutOfFuel Z = Done status ->
      exists pre e, trace (snd run) = pre ++ [e] /\ reports_error e = true).
Proof.
  intros os run.
  assert (Hrun : run = (OutOfFuel, snd run)) by reflexivity.
  assert (Htrace : trace (snd run) = trace (boot tt) ++ trace (snd run)) by reflexivity.
  split; [exact Hrun|]. split; [exact Htrace|].
  exact (monitor_file_returns_only_on_error os 3 4242 2 17 (boot tt)
           OutOfFuel (snd run) (trace (snd run)) Hrun Htrace).
Defined.

(** The third call is interrupted, which is the second read of the first
    record when the loop is run alone and the first wait when the process
    is: [EINTR] is the result of the loop and of the process. *)
Lemma failed_wait_or_read_is_terminal_witness :
  let os := timed (interrupted_at 2) in
  let loop := monitor_file os 3 17 3 4242 (boot 0%nat) in
  let process := main os 3 17 argv0 (boot 0%nat) in
  posix_errno os
  /\ loop = (Done EINTR, snd loop)
  /\ process = (Done EINTR, snd process)
  /\ (exists tr,
         trace (snd loop) = trace (boot 0%nat) ++ tr
         /\ forall pre e post,
              tr = pre ++ e :: post -> fatal e = true ->
              post = [] /\ Done EINTR = Done (err (snd e)))
  /\ (exists tr,
         trace (snd process) = trace (boot 0%nat) ++ tr
         /\ forall pre e post,
              tr = pre ++ e :: post -> fatal e = true ->
              post = [] /\ Done EINTR = Done (err (snd e))).
Proof.
  intros os loop process.
  assert (Hos : posix_errno os) by apply interrupted_posix_errno.
  assert (Hloop : loop = (Done EINTR, snd loop)) by reflexivity.
  assert (Hmain : process = (Done EINTR, snd process)) by reflexivity.
  split; [exact Hos|]. split; [exact Hloop|]. split; [exact Hmain|].
  exact (failed_wait_or_read_is_terminal os 3 4242 3 17 argv0 (boot 0%nat)
           (Done EINTR) (snd loop) (Done EINTR) (snd process) Hos Hloop Hmain).
Defined.

(** The channel cannot be created; then the path cannot be registered. *)
Lemma setup_failure_ends_the_process_witness :
  let os := scripted (healthy 5) in
  main os 3 17 argv0 (boot [Reply (-1) EMFILE []])
  = (Done 1, State [] EMFILE [(inotify_init, Reply (-1) EMFILE [])])
  /\ main os 3 17 argv0 (boot [Reply 3 0 []; Reply (-1) ENOENT []])
     = (Done 1,
        State [] ENOENT
          [(inotify_init, Reply 3 0 []);
           (inotify_add_watch 3 "/tmp/stats.txt" (Z.lor IN_MODIFY IN_CREATE),
            Reply (-1) ENOENT [])]).
Proof.
  intros os. split.
  - assert (Hinit : ret (answer os (boot [Reply (-1) EMFILE []]) inotify_init) < 0)
      by (vm_compute; reflexivity).
    exact (proj1 (proj1 (setup_failure_ends_the_process os 3 17
                           "m5stat-monitor" "/tmp/stats.txt" "4242"
                           (boot [Reply (-1) EMFILE []])) Hinit)).
  - assert (Hinit : 0 <= ret (answer os (boot [Reply 3 0 []; Reply (-1) ENOENT []])
                                inotify_init))
      by (vm_compute; discriminate).
    assert (Hwatch :
      ret (answer os
             (after os (boot [Reply 3 0 []; Reply (-1) ENOENT []]) inotify_init)
             (inotify_add_watch 3 "/tmp/stats.txt" (Z.lor IN_MODIFY IN_CREATE))) < 0)
      by (vm_compute; reflexivity).
    exact (proj1 (proj2 (setup_failure_ends_the_process os 3 17
                           "m5stat-monitor" "/tmp/stats.txt" "4242"
                           (boot [Reply 3 0 []; Reply (-1) ENOENT []])) Hinit Hwatch)).
Defined.

End Witnesses.

(** * Further properties of the program *)

(** ** The command line and the set-up *)

Section Setup.

Context {W : Type}.
Variable os : W -> syscall -> reply * W.

(** X1: on a command line that does not have exactly two arguments, [main]
    writes the usage text to the error stream, returns [EINVAL], and makes
    no other call: no channel is opened, nothing is watched, no signal is
    sent. *)
Theorem main_wrong_argument_count fuel rfuel argv s :
  List.length argv <> 3%nat ->
  main os fuel rfuel argv s
  = (Done EINVAL, after os s (fprintf_stderr usage_text))
  /\ trace (after os s (fprintf_stderr usage_text))
     = trace s ++ [(fprintf_stderr usage_text, answer os s (fprintf_stderr usage_text))]
  /\ parse_argv os (Z.of_nat (List.length argv)) argv s
     = (Done (EINVAL, None), after os s (fprintf_stderr usage_text)).
Proof.
  intros Hargc.
  assert (Hparse : parse_argv os (Z.of_nat (List.length argv)) argv s
                   = (Done (EINVAL, None), after os s (fprintf_stderr usage_text))).
  { unfold parse_argv.
    destruct (Z.eqb_spec (Z.of_nat (List.length argv)) 3) as [E|_]; [lia|].
    cbn [negb]. unfold usage, bind, Return. now rewrite sys_run. }
  split; [|split; [apply trace_after|exact Hparse]].
  unfold main, bind at 1. rewrite Hparse. reflexivity.
Qed.

(** X2: [create_file_monitor] makes [inotify_init] its first call; it makes
    a second call only when the first succeeded, and that is the
    registration of [file] on the new descriptor for [IN_MODIFY|IN_CREATE].
    Its result is negative exactly when one of the calls it made failed;
    otherwise it is the descriptor of the channel, not the watch
    descriptor. *)
Theorem create_file_monitor_result file s :
  exists fd s',
    create_file_monitor os file s = (Done fd, s')
    /\ (fd < 0 <->
        ret (answer os s inotify_init) < 0
        \/ ret (answer os (after os s inotify_init)
                  (inotify_add_watch (ret (answer os s inotify_init)) file
                     (Z.lor IN_MODIFY IN_CREATE))) < 0)
    /\ (0 <= fd -> fd = ret (answer os s inotify_init))
    /\ (ret (answer os s inotify_init) < 0 ->
        trace s' = trace s ++ [(inotify_init, answer os s inotify_init)])
    /\ (0 <= ret (answer os s inotify_init) ->
        trace s'
        = trace s
            ++ [(inotify_init, answer os s inotify_init);
                (inotify_add_watch (ret (answer os s inotify_init)) file
                   (Z.lor IN_MODIFY IN_CREATE),
                 answer os (after os s inotify_init)
                   (inotify_add_watch (ret (answer os s inotify_init)) file
                      (Z.lor IN_MODIFY IN_CREATE)))]).
Proof.
  rewrite create_file_monitor_run. cbv zeta.
  set (r1 := answer os s inotify_init).
  set (c2 := inotify_add_watch (ret r1) file (Z.lor IN_MODIFY IN_CREATE)).
  set (r2 := answer os (after os s inotify_init) c2).
  destruct (Z.ltb_spec (ret r1) 0) as [Hinit|Hinit].
  - eexists _, _. split; [reflexivity|].
    split; [tauto|]. split; [lia|]. split; [intros _; apply trace_after|lia].
  - destruct (Z.ltb_spec (ret r2) 0) as [Hwatch|Hwatch];
      (eexists _, _; split; [reflexivity|]);
      (split; [split; [intros; lia|intros [?|?]; lia]|]);
      (split; [intros; lia|]);
      (split; [intros; lia|]);
      intros _; rewrite !trace_after; fold r1; fold c2; fold r2; same_trace.
Qed.

Lemma negated_int_is_not_zero fd :
  - 2 ^ 31 <= fd < 0 -> C.int (- fd) <> 0.
Proof.
  intros Hfd. destruct (Z.eq_dec fd (- 2 ^ 31)) as [->|Hne].
  - vm_compute. discriminate.
  - rewrite int_small; lia.
Qed.

Lemma monitor_loop_not_zero (Herr : posix_errno os) fd pid rfuel fuel :
  forall s st s',
    monitor_loop os fuel rfuel fd pid s = (Done st, s') -> st <> 0.
Proof.
  induction fuel as [|fuel IH]; intros s st s' Hrun; [discriminate|].
  rewrite monitor_loop_step in Hrun. cbv zeta in Hrun.
  set (c := poll fd POLLIN 1 (-1)) in *.
  destruct (Z.ltb_spec (ret (answer os s c)) 0) as [Hneg|_].
  - rewrite errno_after_failure in Hrun by assumption.
    apply pair_equal_spec in Hrun as [Hres _]. injection Hres as <-.
    now apply Herr.
  - destruct (handle_inotify_event os rfuel fd pid (after os s c)) as [[st1|] s2];
      [|discriminate].
    destruct (Z.eqb_spec st1 0) as [->|Hst1]; cbn [negb] in Hrun.
    + eapply IH; eassumption.
    + apply pair_equal_spec in Hrun as [Hres _]. congruence.
Qed.

(** X3: where the results of the calls are [int]s and failing calls store a
    non-zero error number, [main] never returns 0, whatever its command
    line: the exit status of the process always tells a failure. *)
Theorem main_never_returns_zero fuel rfuel argv s status s' :
  posix_errno os ->
  int_results os ->
  main os fuel rfuel argv s = (Done status, s') ->
  status <> 0.
Proof.
  intros Herr Hint.
  destruct (Nat.eq_dec (List.length argv) 3) as [Hargc|Hargc].
  - rewrite (main_run_args os fuel rfuel argv s Hargc).
    set (s0 := after_atoi (nth 2 argv EmptyString) s).
    destruct (create_file_monitor os (nth 1 argv EmptyString) s0) as [[fd|] s1] eqn:Hcreate;
      [|discriminate].
    destruct (Z.ltb_spec fd 0) as [Hneg|_].
    + intros Hrun. apply pair_equal_spec in Hrun as [Hres _].
      injection Hres as <-. apply negated_int_is_not_zero. split; [|assumption].
      rewrite create_file_monitor_run in Hcreate. cbv zeta in Hcreate.
      destruct (ret (answer os s0 inotify_init) <? 0);
        [|destruct (ret (answer os (after os s0 inotify_init) _) <? 0)];
        apply pair_equal_spec in Hcreate as [Hres _]; injection Hres as <-;
        apply Hint.
    + apply (monitor_loop_not_zero Herr).
  - unfold main, parse_argv.
    destruct (Z.eqb_spec (Z.of_nat (List.length argv)) 3) as [E|_]; [lia|].
    cbn [negb]. unfold usage, bind, Return. rewrite sys_run. cbn [Z.eqb negb EINVAL].
    intros Hrun. apply pair_equal_spec in Hrun as [Hres _].
    injection Hres as <-. discriminate.
Qed.

End Setup.

(** ** More on the event record reader *)

Lemma write_at_suffix off bs (buf : buffer) k :
  (Z.to_nat off + List.length bs <= List.length buf)%nat ->
  (Z.to_nat off + List.length bs <= k)%nat ->
  skipn k (write_at off bs buf) = skipn k buf.
Proof.
  intros Hfit Hk. unfold write_at. rewrite app_assoc, skipn_app.
  rewrite length_app, length_map, length_firstn.
  rewrite skipn_all2 by (rewrite length_app, length_map, length_firstn; lia).
  rewrite skipn_skipn. cbn [app]. f_equal. lia.
Qed.

Section ReaderCalls.

Context {W : Type}.
Variable os : W -> syscall -> reply * W.

(** X4: when the first [read] delivers the whole record, as inotify does,
    the reader makes this one call and returns success with the bytes
    delivered stored at the start of the record; [handle_inotify_event] then
    makes two calls in all, the [read] and the [kill]. *)
Theorem read_inotify_event_single_read fd pid rfuel out s :
  ret (answer os s (read fd 0 sizeof_inotify_event)) = sizeof_inotify_event ->
  (2 <= rfuel)%nat ->
  read_inotify_event os rfuel fd out s
  = (Done (0, write_at 0 (data (answer os s (read fd 0 sizeof_inotify_event))) out),
     after os s (read fd 0 sizeof_inotify_event))
  /\ exists status,
      handle_inotify_event os rfuel fd pid s
      = (Done status,
         after os (after os s (read fd 0 sizeof_inotify_event)) (kill pid SIGUSR1)).
Proof.
  intros Hret Hfuel.
  assert (Hread : forall buf,
    read_inotify_event os rfuel fd buf s
    = (Done (0, write_at 0 (data (answer os s (read fd 0 sizeof_inotify_event))) buf),
       after os s (read fd 0 sizeof_inotify_event))).
  { intros buf. unfold read_inotify_event.
    destruct rfuel as [|[|rfuel]]; [lia|lia|].
    rewrite read_loop_step by (unfold sizeof_inotify_event; lia). cbv zeta.
    change (sizeof_inotify_event - 0) with sizeof_inotify_event.
    rewrite Hret.
    change (sizeof_inotify_event <? 0) with false. cbv iota.
    change (C.ssize_t (0 + sizeof_inotify_event)) with sizeof_inotify_event.
    apply read_loop_exit. }
  split; [apply Hread|].
  rewrite handle_run, Hread. cbn [Z.eqb negb]. cbv zeta.
  eexists. reflexivity.
Qed.

Lemma read_loop_lively_calls fd (Hos : lively os fd) fuel :
  forall len buf s res s',
    0 <= len <= sizeof_inotify_event ->
    read_loop os fuel fd len buf s = (res, s') ->
    exists tr,
      trace s' = trace s ++ tr
      /\ len + Z.of_nat (List.length tr) <= sizeof_inotify_event
      /\ Forall (fun e => is_read fd e /\ 1 <= ret (snd e)) tr
      /\ (forall x, res = Done x -> len < sizeof_inotify_event -> tr <> []).
Proof.
  induction fuel as [|fuel IH]; intros len buf s res s' Hlen Hrun.
  - apply pair_equal_spec in Hrun as [<- <-]. exists []. rewrite app_nil_r.
    cbn [List.length]. repeat split; try lia; [constructor|discriminate].
  - destruct (Z.eq_dec len sizeof_inotify_event) as [->|Hne].
    + rewrite read_loop_exit in Hrun. apply pair_equal_spec in Hrun as [<- <-].
      exists []. rewrite app_nil_r. cbn [List.length].
      repeat split; try lia. constructor.
    + rewrite read_loop_step in Hrun by lia. cbv zeta in Hrun.
      destruct (Hos (world s) len (sizeof_inotify_event - len)) as (Hret & _); [lia|].
      change (fst (os (world s) (read fd len (sizeof_inotify_event - len))))
        with (answer os s (read fd len (sizeof_inotify_event - len))) in Hret.
      remember (answer os s (read fd len (sizeof_inotify_event - len))) as r eqn:Er.
      destruct (Z.ltb_spec (ret r) 0) as [Hneg|_]; [lia|].
      rewrite ssize_t_small in Hrun by (unfold sizeof_inotify_event in *; lia).
      apply IH in Hrun as (tr & Htr & Hcount & Hall & _); [|lia].
      exists ((read fd len (sizeof_inotify_event - len), r) :: tr).
      split; [rewrite Htr, trace_after, <- Er; same_trace|].
      cbn [List.length]. split; [lia|].
      split; [constructor; [split; [reflexivity|cbn [snd]; lia]|exact Hall]|].
      discriminate.
Qed.

(** X5: on a channel whose every read delivers at least one byte, a run of
    the reader never makes more than sizeof(struct inotify_event) calls, all
    of them reads on [fd] that delivered something; given that many
    iterations and one more it makes at least one call and returns
    success. *)
Theorem read_inotify_event_call_count fd rfuel out s :
  lively os fd ->
  (Z.to_nat sizeof_inotify_event < rfuel)%nat ->
  exists ie s' tr,
    read_inotify_event os rfuel fd out s = (Done (0, ie), s')
    /\ trace s' = trace s ++ tr
    /\ (1 <= List.length tr <= Z.to_nat sizeof_inotify_event)%nat
    /\ Forall (fun e => is_read fd e /\ 1 <= ret (snd e)) tr.
Proof.
  intros Hos Hfuel.
  destruct (read_loop_completes os fd Hos rfuel 0 out s) as (ie & s' & Hrun);
    [unfold sizeof_inotify_event; lia|lia|].
  destruct (read_loop_lively_calls fd Hos rfuel 0 out s _ _
              ltac:(unfold sizeof_inotify_event; lia) Hrun)
    as (tr & Htr & Hcount & Hall & Hsome).
  exists ie, s', tr. split; [exact Hrun|]. split; [exact Htr|].
  split; [|exact Hall].
  specialize (Hsome _ eq_refl ltac:(unfold sizeof_inotify_event; lia)).
  destruct tr; [congruence|]. cbn [List.length] in *. lia.
Qed.

Lemma read_loop_frame fd (Hos : posix_read os fd) fuel :
  forall len buf s st buf' s',
    0 <= len <= sizeof_inotify_event ->
    List.length buf = Z.to_nat sizeof_inotify_event ->
    read_loop os fuel fd len buf s = (Done (st, buf'), s') ->
    exists tr,
      trace s' = trace s ++ tr
      /\ len + Z.of_nat (List.length (delivered tr)) <= sizeof_inotify_event
      /\ buf' = firstn (Z.to_nat len) buf ++ map Some (delivered tr)
                ++ skipn (Z.to_nat len + List.length (delivered tr)) buf.
Proof.
  induction fuel as [|fuel IH]; intros len buf s st buf' s' Hlen Hbuf Hrun;
    [discriminate|].
  destruct (Z.eq_dec len sizeof_inotify_event) as [->|Hne].
  - rewrite read_loop_exit in Hrun. apply pair_equal_spec in Hrun as [Hres <-].
    injection Hres as <- <-. exists []. rewrite app_nil_r.
    cbn [delivered List.length map app]. rewrite Nat.add_0_r.
    split; [reflexivity|]. split; [lia|]. symmetry. apply firstn_skipn.
  - rewrite read_loop_step in Hrun by lia. cbv zeta in Hrun.
    pose proof (Hos (world s) len (sizeof_inotify_event - len) ltac:(lia)) as Hr.
    cbv zeta in Hr.
    change (fst (os (world s) (read fd len (sizeof_inotify_event - len))))
      with (answer os s (read fd len (sizeof_inotify_event - len))) in Hr.
    remember (answer os s (read fd len (sizeof_inotify_event - len))) as r eqn:Er.
    destruct Hr as (_ & Hmax & Hdata).
    destruct (Z.ltb_spec (ret r) 0) as [Hneg|Hpos].
    + apply pair_equal_spec in Hrun as [Hres <-]. injection Hres as _ <-.
      exists [(read fd len (sizeof_inotify_event - len), r)].
      rewrite trace_after, <- Er, delivered_read_failed by assumption.
      cbn [delivered List.length map app]. rewrite Nat.add_0_r.
      split; [reflexivity|]. split; [lia|]. symmetry. apply firstn_skipn.
    + specialize (Hdata Hpos).
      rewrite ssize_t_small in Hrun by (unfold sizeof_inotify_event in *; lia).
      apply IH in Hrun as (tr & Htr & Hacc & Hbuf');
        [|lia|rewrite write_at_length; [assumption|lia|lia]].
      exists ((read fd len (sizeof_inotify_event - len), r) :: tr).
      rewrite delivered_read_done by assumption. rewrite length_app.
      split; [rewrite Htr, trace_after, <- Er; same_trace|].
      split; [lia|]. rewrite Hbuf'.
      replace (Z.to_nat (len + ret r))
        with (Z.to_nat len + List.length (data r))%nat by lia.
      rewrite write_at_prefix by lia.
      rewrite write_at_suffix by lia.
      rewrite map_app, <- !app_assoc. do 3 f_equal.
      apply (f_equal (fun k => skipn k buf)). lia.
Qed.

(** X6: where [read(2)] keeps its promises, whenever the reader returns,
    with success or with an error, the record holds the bytes delivered so
    far at its start and is unchanged beyond them; when the first read
    fails it is unchanged altogether. *)
Theorem read_inotify_event_frame fd fuel out s status ie s' :
  posix_read os fd ->
  List.length out = Z.to_nat sizeof_inotify_event ->
  read_inotify_event os fuel fd out s = (Done (status, ie), s') ->
  exists tr,
    trace s' = trace s ++ tr
    /\ (List.length (delivered tr) <= Z.to_nat sizeof_inotify_event)%nat
    /\ ie = map Some (delivered tr) ++ skipn (List.length (delivered tr)) out
    /\ (delivered tr = [] -> ie = out).
Proof.
  intros Hos Hout Hrun.
  destruct (read_loop_frame fd Hos fuel 0 out s status ie s') as (tr & Htr & Hacc & Hie);
    [unfold sizeof_inotify_event; lia|assumption|exact Hrun|].
  exists tr. split; [exact Htr|]. split; [lia|].
  cbn [Z.to_nat firstn app Nat.add] in Hie. split; [exact Hie|].
  intros Hnone. rewrite Hie, Hnone. reflexivity.
Qed.

End ReaderCalls.

(** ** More on the event loop *)

Lemma waits_app tr1 tr2 : waits (tr1 ++ tr2) = (waits tr1 + waits tr2)%nat.
Proof.
  induction tr1 as [|[c r] tr1 IH]; [reflexivity|].
  cbn [app waits]. destruct c; cbn [Nat.add]; now rewrite IH.
Qed.

Lemma reads_no_wait fd tr : Forall (is_read fd) tr -> waits tr = O.
Proof.
  induction 1 as [|[c r] tr He _ IH]; [reflexivity|].
  destruct c; cbn in He; try contradiction. exact IH.
Qed.

Lemma reads_no_notification fd tr : Forall (is_read fd) tr -> notifications tr = [].
Proof.
  induction 1 as [|[c r] tr He _ IH]; [reflexivity|].
  destruct c; cbn in He; try contradiction. exact IH.
Qed.

Lemma reads_addressed fd file pid tr :
  Forall (is_read fd) tr -> Forall (addressed fd file pid) tr.
Proof.
  apply Forall_impl. intros [c r] He. destruct c; cbn in *; try contradiction.
  exact He.
Qed.

Lemma reads_quiet_calm fd tr : Forall (is_read fd) tr -> quiet tr -> calm tr.
Proof.
  induction 1 as [|[c r] tr He _ IH]; intros Hq; [constructor|].
  apply Forall_cons_iff in Hq as [Hc Hq].
  constructor; [|exact (IH Hq)].
  destruct c; cbn in He; try contradiction. exact Hc.
Qed.

(** Where the only call of a trace that reported an error can be its last,
    a call that reported an error has nothing after it. *)
Lemma reported_error_is_last (Q : event -> Prop) tr :
  calm tr \/ (exists pre e, tr = pre ++ [e] /\ calm pre /\ Q e) ->
  forall pre e post,
    tr = pre ++ e :: post -> reports_error e = true -> post = [] /\ Q e.
Proof.
  intros [Hq|(pre0 & e0 & -> & Hq & HQ)] pre e post Heq Herr.
  - subst tr. apply Forall_app in Hq as [_ Hq]. inversion Hq; congruence.
  - destruct (exists_last (l := e :: post)) as (post0 & x & Hlast); [discriminate|].
    rewrite Hlast, app_assoc in Heq. apply app_inj_tail in Heq as [Hpre ->].
    destruct post0 as [|y post0].
    + injection Hlast as -> ->. now split.
    + injection Hlast as -> ->. subst pre0.
      apply Forall_app in Hq as [_ Hq]. inversion Hq; congruence.
Qed.

Lemma kill_reports_error pid sig r :
  reports_error (kill pid sig, r) = negb (ret r =? 0).
Proof. reflexivity. Qed.

Lemma poll_reports_error fd events nfds timeout r :
  reports_error (poll fd events nfds timeout, r) = (ret r <? 0).
Proof. reflexivity. Qed.

Section LoopCalls.

Context {W : Type}.
Variable os : W -> syscall -> reply * W.

Lemma read_loop_reads fd fuel :
  forall len buf s res s',
    read_loop os fuel fd len buf s = (res, s') ->
    exists tr, trace s' = trace s ++ tr /\ Forall (is_read fd) tr.
Proof.
  induction fuel as [|fuel IH]; intros len buf s res s' Hrun.
  - apply pair_equal_spec in Hrun as [_ <-]. exists []. rewrite app_nil_r.
    split; [reflexivity|constructor].
  - rewrite read_loop_unfold in Hrun.
    destruct (negb (C.size_t len =? sizeof_inotify_event)).
    + unfold bind at 1 in Hrun. rewrite sys_run in Hrun.
      set (c := read fd len (C.size_t (sizeof_inotify_event - len))) in *.
      assert (Hc : is_read fd (c, answer os s c)) by reflexivity.
      destruct (ret (answer os s c) <? 0).
      * unfold bind, get_errno, Return in Hrun.
        apply pair_equal_spec in Hrun as [_ <-].
        exists [(c, answer os s c)]. split; [apply trace_after|now constructor].
      * apply IH in Hrun as (tr & Htr & Hall).
        exists ((c, answer os s c) :: tr).
        split; [rewrite Htr, trace_after; same_trace|now constructor].
    + apply pair_equal_spec in Hrun as [_ <-]. exists []. rewrite app_nil_r.
      split; [reflexivity|constructor].
Qed.

(** The calls of [handle_inotify_event], whatever the system answers:
    reads on [fd], then either nothing more, and the result is not 0, or
    one [kill(pid, SIGUSR1)]. *)
Lemma handle_calls fd pid rfuel s res s' :
  handle_inotify_event os rfuel fd pid s = (res, s') ->
  exists tr,
    trace s' = trace s ++ tr
    /\ ((Forall (is_read fd) tr /\ res <> Done 0)
        \/ (exists reads rk,
               tr = reads ++ [(kill pid SIGUSR1, rk)] /\ Forall (is_read fd) reads)).
Proof.
  rewrite handle_run. unfold read_inotify_event.
  destruct (read_loop os rfuel fd 0 ie_indeterminate s) as [[[st ie]|] s1] eqn:Hread;
    apply read_loop_reads in Hread as (tr & Htr & Hall).
  - destruct (Z.eqb_spec st 0) as [->|Hst]; cbn [negb]; cbv zeta;
      intros Hrun; apply pair_equal_spec in Hrun as [<- <-].
    + exists (tr ++ [(kill pid SIGUSR1, answer os s1 (kill pid SIGUSR1))]).
      split; [rewrite trace_after, Htr; same_trace|].
      right. now eexists _, _.
    + exists tr. split; [exact Htr|]. left. split; [exact Hall|congruence].
  - intros Hrun. apply pair_equal_spec in Hrun as [<- <-].
    exists tr. split; [exact Htr|]. left. split; [exact Hall|discriminate].
Qed.

Lemma monitor_loop_signal_count fd pid rfuel fuel :
  forall s res s',
    monitor_loop os fuel rfuel fd pid s = (res, s') ->
    exists tr k,
      trace s' = trace s ++ tr
      /\ notifications tr = repeat (pid, SIGUSR1) k
      /\ (k <= waits tr <= k + 1)%nat.
Proof.
  induction fuel as [|fuel IH]; intros s res s' Hrun.
  - apply pair_equal_spec in Hrun as [_ <-]. exists [], O. rewrite app_nil_r.
    cbn [waits]. repeat split; lia.
  - rewrite monitor_loop_step in Hrun. cbv zeta in Hrun.
    set (c := poll fd POLLIN 1 (-1)) in *.
    destruct (ret (answer os s c) <? 0).
    + apply pair_equal_spec in Hrun as [_ <-].
      exists [(c, answer os s c)], O. split; [apply trace_after|].
      unfold c. cbn [waits notifications repeat]. repeat split; lia.
    + destruct (handle_inotify_event os rfuel fd pid (after os s c))
        as [res1 s2] eqn:Hhandle.
      apply handle_calls in Hhandle
        as (tr1 & Htr1 & [[Hreads Hres1]|(reads & rk & -> & Hreads)]).
      * assert (Hstop : res = res1 /\ s' = s2).
        { destruct res1 as [st1|];
            [|apply pair_equal_spec in Hrun as [<- <-]; now split].
          destruct (Z.eqb_spec st1 0) as [->|_]; [congruence|].
          cbn [negb] in Hrun. apply pair_equal_spec in Hrun as [<- <-]. now split. }
        destruct Hstop as [_ ->].
        exists ((c, answer os s c) :: tr1), O.
        split; [rewrite Htr1, trace_after; same_trace|].
        unfold c. cbn [waits notifications].
        rewrite (reads_no_wait _ _ Hreads), (reads_no_notification _ _ Hreads).
        repeat split; lia.
      * assert (Hblock :
          notifications ((c, answer os s c) :: reads ++ [(kill pid SIGUSR1, rk)])
          = [(pid, SIGUSR1)]
          /\ waits ((c, answer os s c) :: reads ++ [(kill pid SIGUSR1, rk)]) = 1%nat).
        { unfold c. cbn [waits notifications]. rewrite notifications_app, waits_app.
          rewrite (reads_no_wait _ _ Hreads), (reads_no_notification _ _ Hreads).
          split; reflexivity. }
        destruct Hblock as [Hn Hw].
        destruct res1 as [st1|].
        -- destruct (Z.eqb_spec st1 0) as [->|_]; cbn [negb] in Hrun.
           ++ apply IH in Hrun as (tr2 & k & Htr2 & Hnotif & Hwaits).
              exists (((c, answer os s c) :: reads ++ [(kill pid SIGUSR1, rk)]) ++ tr2),
                (S k).
              split; [rewrite Htr2, Htr1, trace_after; same_trace|].
              rewrite notifications_app, waits_app, Hn, Hw, Hnotif.
              split; [reflexivity|lia].
           ++ apply pair_equal_spec in Hrun as [_ <-].
              exists ((c, answer os s c) :: reads ++ [(kill pid SIGUSR1, rk)]), 1%nat.
              split; [rewrite Htr1, trace_after; same_trace|].
              rewrite Hn, Hw. split; [reflexivity|lia].
        -- apply pair_equal_spec in Hrun as [_ <-].
           exists ((c, answer os s c) :: reads ++ [(kill pid SIGUSR1, rk)]), 1%nat.
           split; [rewrite Htr1, trace_after; same_trace|].
           rewrite Hn, Hw. split; [reflexivity|lia].
Qed.

Lemma turns_reads fd pid reads rest :
  Forall (is_read fd) reads -> turns true pid rest -> turns true pid (reads ++ rest).
Proof.
  induction 1 as [|[c r] reads He _ IH]; intros Hrest; [exact Hrest|].
  destruct c; cbn in He; try contradiction.
  cbn [app turns]. split; [reflexivity|exact (IH Hrest)].
Qed.

Lemma monitor_loop_turns fd pid rfuel fuel :
  forall s res s',
    monitor_loop os fuel rfuel fd pid s = (res, s') ->
    exists tr, trace s' = trace s ++ tr /\ turns false pid tr.
Proof.
  induction fuel as [|fuel IH]; intros s res s' Hrun.
  - apply pair_equal_spec in Hrun as [_ <-]. exists []. rewrite app_nil_r.
    split; [reflexivity|exact I].
  - rewrite monitor_loop_step in Hrun. cbv zeta in Hrun.
    destruct (ret (answer os s (poll fd POLLIN 1 (-1))) <? 0).
    + apply pair_equal_spec in Hrun as [_ <-].
      exists [(poll fd POLLIN 1 (-1), answer os s (poll fd POLLIN 1 (-1)))].
      split; [apply trace_after|]. cbn [turns]. now split.
    + destruct (handle_inotify_event os rfuel fd pid
                  (after os s (poll fd POLLIN 1 (-1)))) as [res1 s2] eqn:Hhandle.
      apply handle_calls in Hhandle
        as (tr1 & Htr1 & [[Hreads Hres1]|(reads & rk & -> & Hreads)]).
      * assert (Hstop : s' = s2).
        { destruct res1 as [st1|];
            [|now apply pair_equal_spec in Hrun as [_ <-]].
          destruct (Z.eqb_spec st1 0) as [->|_]; [congruence|].
          cbn [negb] in Hrun. now apply pair_equal_spec in Hrun as [_ <-]. }
        subst s'.
        exists ((poll fd POLLIN 1 (-1), answer os s (poll fd POLLIN 1 (-1))) :: tr1).
        split; [rewrite Htr1, trace_after; same_trace|].
        cbn [turns]. split; [reflexivity|].
        rewrite <- (app_nil_r tr1). now apply (turns_reads fd).
      * assert (Hnext : exists tr2, trace s' = trace s2 ++ tr2 /\ turns false pid tr2).
        { destruct res1 as [st1|].
          - destruct (negb (st1 =? 0)).
            + apply pair_equal_spec in Hrun as [_ <-]. exists [].
              rewrite app_nil_r. now split.
            + exact (IH _ _ _ Hrun).
          - apply pair_equal_spec in Hrun as [_ <-]. exists [].
            rewrite app_nil_r. now split. }
        destruct Hnext as (tr2 & Htr2 & Hturns2).
        exists ((poll fd POLLIN 1 (-1), answer os s (poll fd POLLIN 1 (-1)))
                  :: reads ++ (kill pid SIGUSR1, rk) :: tr2).
        split; [rewrite Htr2, Htr1, trace_after; same_trace|].
        cbn [turns]. split; [reflexivity|].
        apply (turns_reads fd); [exact Hreads|].
        cbn [turns]. now repeat split.
Qed.

(** X7: in every run of [monitor_file], whatever the system answers, waits
    and signals alternate, beginning with a wait: a signal is sent only
    after a wait (and the reads of that turn) that no signal has followed
    yet, it is [SIGUSR1] to [pid], and no further wait or read is made
    between a signal and the next wait; so there is never a signal without
    a wait before it and never two for one wait.  Counted: after [w] waits
    the loop has sent [w] signals, or [w - 1] when the turn of the last
    wait has not sent its own. *)
Theorem monitor_file_one_signal_per_wait fd pid fuel rfuel s res s' :
  monitor_file os fuel rfuel fd pid s = (res, s') ->
  exists tr k,
    trace s' = trace s ++ tr
    /\ notifications tr = repeat (pid, SIGUSR1) k
    /\ (k <= waits tr <= k + 1)%nat
    /\ turns false pid tr.
Proof.
  unfold monitor_file. intros Hrun.
  destruct (monitor_loop_signal_count fd pid rfuel fuel _ _ _ Hrun)
    as (tr & k & Htr & Hnotif & Hcount).
  destruct (monitor_loop_turns fd pid rfuel fuel _ _ _ Hrun) as (tr' & Htr' & Hturns).
  rewrite Htr in Htr'. apply app_inv_head in Htr'. subst tr'.
  exists tr, k. now repeat split.
Qed.

Lemma monitor_loop_addressed fd file pid rfuel fuel :
  forall s res s',
    monitor_loop os fuel rfuel fd pid s = (res, s') ->
    exists tr, trace s' = trace s ++ tr /\ Forall (addressed fd file pid) tr.
Proof.
  induction fuel as [|fuel IH]; intros s res s' Hrun.
  - apply pair_equal_spec in Hrun as [_ <-]. exists []. rewrite app_nil_r.
    split; [reflexivity|constructor].
  - rewrite monitor_loop_step in Hrun. cbv zeta in Hrun.
    set (c := poll fd POLLIN 1 (-1)) in *.
    assert (Hc : addressed fd file pid (c, answer os s c)) by (cbn; tauto).
    destruct (ret (answer os s c) <? 0).
    + apply pair_equal_spec in Hrun as [_ <-].
      exists [(c, answer os s c)]. split; [apply trace_after|now constructor].
    + destruct (handle_inotify_event os rfuel fd pid (after os s c))
        as [res1 s2] eqn:Hhandle.
      apply handle_calls in Hhandle as (tr1 & Htr1 & Hcases).
      assert (Htr1ok : Forall (addressed fd file pid) tr1).
      { destruct Hcases as [[Hreads _]|(reads & rk & -> & Hreads)].
        - now apply reads_addressed.
        - apply Forall_app. split; [now apply reads_addressed|].
          constructor; [cbn; tauto|constructor]. }
      assert (Hhere : trace s2 = trace s ++ (c, answer os s c) :: tr1)
        by (rewrite Htr1, trace_after; same_trace).
      destruct res1 as [st1|].
      * destruct (negb (st1 =? 0)).
        -- apply pair_equal_spec in Hrun as [_ <-].
           exists ((c, answer os s c) :: tr1). split; [exact Hhere|now constructor].
        -- apply IH in Hrun as (tr2 & Htr2 & Htr2ok).
           exists (((c, answer os s c) :: tr1) ++ tr2).
           split; [rewrite Htr2, Hhere; same_trace|].
           apply Forall_app. split; [now constructor|exact Htr2ok].
      * apply pair_equal_spec in Hrun as [_ <-].
        exists ((c, answer os s c) :: tr1). split; [exact Hhere|now constructor].
Qed.

(** X8: in every run of [main] on a command line of two arguments, whatever
    the system answers, the first call is [inotify_init] and every later
    call concerns the descriptor it returned, the path given or the process
    given: the registration of the path on that descriptor for
    [IN_MODIFY|IN_CREATE], waits without timeout on that descriptor alone,
    reads on it, [SIGUSR1] to the process identifier [atoi] made of the
    second argument. No other channel is opened, no other process is
    signalled, the usage text is not printed. *)
Theorem main_calls_are_addressed fuel rfuel prog path pidstr s res s' :
  main os fuel rfuel [prog; path; pidstr] s = (res, s') ->
  exists r1 rest,
    trace s' = trace s ++ (inotify_init, r1) :: rest
    /\ Forall (addressed (ret r1) path (Libc.atoi pidstr)) rest.
Proof.
  rewrite main_run, create_file_monitor_run. cbv zeta.
  rewrite !answer_after_atoi, !answer_after_atoi_call.
  set (r1 := answer os s inotify_init).
  set (c2 := inotify_add_watch (ret r1) path (Z.lor IN_MODIFY IN_CREATE)).
  assert (Hc2 : forall r, addressed (ret r1) path (Libc.atoi pidstr) (c2, r))
    by (intros r; cbn; tauto).
  destruct (ret r1 <? 0) eqn:Hinit.
  - rewrite Hinit. intros Hrun. apply pair_equal_spec in Hrun as [_ <-].
    exists r1, []. split; [apply trace_after_atoi_call|constructor].
  - destruct (ret (answer os (after os s inotify_init) c2) <? 0) eqn:Hwatch.
    + rewrite Hwatch. intros Hrun. apply pair_equal_spec in Hrun as [_ <-].
      exists r1, [(c2, answer os (after os s inotify_init) c2)].
      split; [apply trace_after_atoi_calls|]. constructor; [apply Hc2|constructor].
    + rewrite Hinit. intros Hrun.
      apply (monitor_loop_addressed (ret r1) path) in Hrun as (tr & Htr & Hall).
      exists r1, ((c2, answer os (after os s inotify_init) c2) :: tr).
      split; [rewrite Htr, trace_after_atoi_calls; same_trace|].
      constructor; [apply Hc2|exact Hall].
Qed.

End LoopCalls.

(** ** Errors and the whole process *)

Section ProcessRuns.

Context {W : Type}.
Variable os : W -> syscall -> reply * W.

Lemma handle_first_error (Herr : posix_errno os) (Hkill : posix_kill os)
      fd pid rfuel s res s' :
  handle_inotify_event os rfuel fd pid s = (res, s') ->
  exists tr,
    trace s' = trace s ++ tr
    /\ ((calm tr /\ (res = OutOfFuel \/ res = Done 0))
        \/ (exists pre e,
               tr = pre ++ [e] /\ calm pre /\ reports_error e = true
               /\ err (snd e) <> 0 /\ res = Done (err (snd e)))).
Proof.
  rewrite handle_run. unfold read_inotify_event.
  destruct (read_loop os rfuel fd 0 ie_indeterminate s) as [[[st ie]|] s1] eqn:Hread;
    pose proof (read_loop_reads os fd rfuel _ _ _ _ _ Hread) as (tr0 & Htr0 & Hreads);
    apply read_loop_trace in Hread as (tr & Htr & Hcases);
    rewrite Htr0 in Htr; apply app_inv_head in Htr; subst tr0.
  - destruct Hcases as [[Hq Hzero]|(pre & [c r] & -> & Hq & He & (w & Hw) & b & Hres)].
    + rewrite (Hzero st ie eq_refl). cbn [Z.eqb negb]. cbv zeta.
      intros Hrun. apply pair_equal_spec in Hrun as [<- <-].
      exists (tr ++ [(kill pid SIGUSR1, answer os s1 (kill pid SIGUSR1))]).
      split; [rewrite trace_after, Htr0; same_trace|].
      assert (Hcalm : calm tr) by (eapply reads_quiet_calm; eassumption).
      pose proof (Hkill (world s1) pid SIGUSR1) as Hle.
      change (fst (os (world s1) (kill pid SIGUSR1)))
        with (answer os s1 (kill pid SIGUSR1)) in Hle.
      destruct (Z.eqb_spec (ret (answer os s1 (kill pid SIGUSR1))) 0) as [Hok|Hko];
        cbn [negb].
      * left. split; [|now right]. apply Forall_app. split; [exact Hcalm|].
        constructor; [|constructor].
        rewrite kill_reports_error. now apply negb_false_iff, Z.eqb_eq.
      * assert (Hneg : ret (answer os s1 (kill pid SIGUSR1)) < 0) by lia.
        right. exists tr, (kill pid SIGUSR1, answer os s1 (kill pid SIGUSR1)).
        rewrite errno_after_failure by assumption. cbn [snd].
        split; [reflexivity|]. split; [exact Hcalm|].
        split; [rewrite kill_reports_error; now apply negb_true_iff, Z.eqb_neq|].
        split; [apply Herr; exact Hneg|reflexivity].
    + injection Hres as -> _. cbn [snd fst] in *.
      assert (Hneg : ret r < 0)
        by (destruct c; cbn in He; try discriminate; now apply Z.ltb_lt).
      assert (Hnz : err r <> 0) by (rewrite Hw; apply Herr; now rewrite <- Hw).
      destruct (Z.eqb_spec (err r) 0) as [E|_]; [contradiction|]. cbn [negb].
      intros Hrun. apply pair_equal_spec in Hrun as [<- <-].
      exists (pre ++ [(c, r)]). split; [assumption|].
      right. exists pre, (c, r).
      apply Forall_app in Hreads as [Hreads _].
      split; [reflexivity|]. split; [eapply reads_quiet_calm; eassumption|].
      split; [now apply fatal_reports_error|]. now split.
  - intros Hrun. apply pair_equal_spec in Hrun as [<- <-].
    exists tr. split; [assumption|]. left.
    destruct Hcases as [[Hq _]|(pre & e & _ & _ & _ & _ & b & Hres)];
      [|discriminate].
    split; [eapply reads_quiet_calm; eassumption|now left].
Qed.

Lemma monitor_loop_first_error (Herr : posix_errno os) (Hkill : posix_kill os)
      fd pid rfuel fuel :
  forall s res s',
    monitor_loop os fuel rfuel fd pid s = (res, s') ->
    exists tr,
      trace s' = trace s ++ tr
      /\ ((calm tr /\ res = OutOfFuel)
          \/ (exists pre e,
                 tr = pre ++ [e] /\ calm pre /\ reports_error e = true
                 /\ err (snd e) <> 0 /\ res = Done (err (snd e)))).
Proof.
  induction fuel as [|fuel IH]; intros s res s' Hrun.
  - apply pair_equal_spec in Hrun as [<- <-]. exists []. rewrite app_nil_r.
    split; [reflexivity|]. left. split; [constructor|reflexivity].
  - rewrite monitor_loop_step in Hrun. cbv zeta in Hrun.
    set (c := poll fd POLLIN 1 (-1)) in *.
    destruct (Z.ltb_spec (ret (answer os s c)) 0) as [Hneg|Hpos].
    + rewrite errno_after_failure in Hrun by assumption.
      apply pair_equal_spec in Hrun as [<- <-].
      exists [(c, answer os s c)]. split; [apply trace_after|].
      right. exists [], (c, answer os s c). cbn [snd].
      split; [reflexivity|]. split; [constructor|].
      split; [unfold c; rewrite poll_reports_error; now apply Z.ltb_lt|].
      split; [now apply Herr|reflexivity].
    + assert (Hc : reports_error (c, answer os s c) = false)
        by (unfold c; rewrite poll_reports_error; now apply Z.ltb_ge).
      destruct (handle_inotify_event os rfuel fd pid (after os s c))
        as [res1 s2] eqn:Hhandle.
      apply (handle_first_error Herr Hkill) in Hhandle
        as (tr1 & Htr1 & [[Hcalm [->| ->]]|(pre & e & -> & Hcalm & He & Hnz & ->)]).
      * apply pair_equal_spec in Hrun as [<- <-].
        exists ((c, answer os s c) :: tr1).
        split; [rewrite Htr1, trace_after; same_trace|].
        left. split; [now constructor|reflexivity].
      * cbn [Z.eqb negb] in Hrun.
        apply IH in Hrun as (tr2 & Htr2 & Hcases).
        exists (((c, answer os s c) :: tr1) ++ tr2).
        split; [rewrite Htr2, Htr1, trace_after; same_trace|].
        destruct Hcases as [[Hcalm2 ->]|(pre & e & -> & Hcalm2 & He)].
        -- left. split; [|reflexivity]. apply Forall_app. split; [now constructor|assumption].
        -- right. exists (((c, answer os s c) :: tr1) ++ pre), e.
           split; [now rewrite app_assoc|]. split; [|exact He].
           apply Forall_app. split; [now constructor|assumption].
      * rewrite (proj2 (Z.eqb_neq _ _) Hnz) in Hrun. cbn [negb] in Hrun.
        apply pair_equal_spec in Hrun as [<- <-].
        exists ((c, answer os s c) :: pre ++ [e]).
        split; [rewrite Htr1, trace_after; same_trace|].
        right. exists ((c, answer os s c) :: pre), e.
        split; [reflexivity|]. split; [now constructor|]. now repeat split.
Qed.

(** X9: where failing calls store a non-zero error number and [kill]
    returns 0 or -1, a run of [monitor_file] stops at the first call that
    reports an error, the signal delivery included: either no call reported
    an error and the loop has not returned, or the last call, and only the
    last, reported one, and the loop returned the error number it stored,
    which is not 0.  After a signal that could not be delivered there is no
    further wait, read or signal. *)
Theorem monitor_file_stops_at_first_error fd pid fuel rfuel s res s' :
  posix_errno os ->
  posix_kill os ->
  monitor_file os fuel rfuel fd pid s = (res, s') ->
  exists tr,
    trace s' = trace s ++ tr
    /\ ((calm tr /\ res = OutOfFuel)
        \/ (exists pre e,
               tr = pre ++ [e] /\ calm pre /\ reports_error e = true
               /\ err (snd e) <> 0 /\ res = Done (err (snd e))))
    /\ (forall pre e post,
           tr = pre ++ e :: post -> reports_error e = true ->
           post = [] /\ res = Done (err (snd e))).
Proof.
  intros Herr Hkill Hrun.
  apply (monitor_loop_first_error Herr Hkill) in Hrun as (tr & Htr & Hcases).
  exists tr. split; [exact Htr|]. split; [exact Hcases|].
  apply (reported_error_is_last (fun e => res = Done (err (snd e)))).
  destruct Hcases as [[Hcalm _]|(pre & e & -> & Hcalm & _ & _ & Hres)].
  - now left.
  - right. now exists pre, e.
Qed.

Lemma monitor_loop_healthy fd pid rfuel :
  healthy_system os fd pid ->
  (Z.to_nat sizeof_inotify_event < rfuel)%nat ->
  forall n s,
  exists s' blocks,
    monitor_loop os n rfuel fd pid s = (OutOfFuel, s')
    /\ trace s' = trace s ++ List.concat blocks
    /\ List.length blocks = n
    /\ Forall (iteration fd pid) blocks.
Proof.
  intros [Hlively Hcalls] Hfuel.
  induction n as [|n IH]; intros s.
  - exists s, []. cbn [List.concat]. rewrite app_nil_r. repeat split. constructor.
  - rewrite monitor_loop_step. cbv zeta.
    set (c := poll fd POLLIN 1 (-1)).
    destruct (Hcalls (world s)) as [Hpoll _]. fold c in Hpoll.
    change (fst (os (world s) c)) with (answer os s c) in Hpoll.
    destruct (Z.ltb_spec (ret (answer os s c)) 0) as [Hneg|_]; [lia|].
    destruct (handle_lively os fd pid rfuel (after os s c) Hlively Hfuel)
      as (s1 & tr & Hrun & Htr & Hshape & Hsum).
    rewrite Hrun.
    destruct (Hcalls (world s1)) as [_ Hkill].
    change (fst (os (world s1) (kill pid SIGUSR1)))
      with (answer os s1 (kill pid SIGUSR1)) in Hkill.
    rewrite Hkill. cbn [Z.eqb negb].
    destruct (IH (after os s1 (kill pid SIGUSR1)))
      as (s' & blocks & Hloop & Htrace & Hlen & Hblocks).
    exists s',
      (((c, answer os s c) :: tr ++ [(kill pid SIGUSR1, answer os s1 (kill pid SIGUSR1))])
         :: blocks).
    split; [exact Hloop|].
    split; [rewrite Htrace, trace_after, Htr, trace_after; cbn [List.concat]; same_trace|].
    split; [cbn [List.length]; now rewrite Hlen|].
    constructor; [|assumption].
    exists (answer os s c), tr, (answer os s1 (kill pid SIGUSR1)). now repeat split.
Qed.

(** X10: the whole process on a system that works.  When [inotify_init]
    returns a descriptor, the registration succeeds, and on that descriptor
    the waits, the reads and the signals to the process given never fail,
    [n] turns of the loop of [main] give: the opening of the channel, the
    registration, then [n] times a wait, the reads of one whole record and
    one [SIGUSR1] to that process; and [main] has not returned. *)
Theorem main_runs_the_loop_on_the_new_channel rfuel prog path pidstr s :
  let r1 := answer os s inotify_init in
  let c2 := inotify_add_watch (ret r1) path (Z.lor IN_MODIFY IN_CREATE) in
  let r2 := answer os (after os s inotify_init) c2 in
  0 <= ret r1 ->
  0 <= ret r2 ->
  healthy_system os (ret r1) (Libc.atoi pidstr) ->
  (Z.to_nat sizeof_inotify_event < rfuel)%nat ->
  forall n,
  exists s' blocks,
    main os n rfuel [prog; path; pidstr] s = (OutOfFuel, s')
    /\ trace s' = trace s ++ (inotify_init, r1) :: (c2, r2) :: List.concat blocks
    /\ List.length blocks = n
    /\ Forall (iteration (ret r1) (Libc.atoi pidstr)) blocks
    /\ notifications (List.concat blocks) = repeat (Libc.atoi pidstr, SIGUSR1) n.
Proof.
  intros r1 c2 r2 Hinit Hwatch Hos Hfuel n.
  rewrite main_run, create_file_monitor_run. cbv zeta.
  rewrite !answer_after_atoi, !answer_after_atoi_call.
  fold r1. fold c2. fold r2.
  apply Z.ltb_ge in Hinit, Hwatch. rewrite Hinit, Hwatch, Hinit.
  destruct (monitor_loop_healthy (ret r1) (Libc.atoi pidstr) rfuel Hos Hfuel n
              (after os (after os (after_atoi pidstr s) inotify_init) c2))
    as (s' & blocks & Hloop & Htrace & Hlen & Hblocks).
  exists s', blocks. split; [exact Hloop|].
  split; [rewrite Htrace, trace_after_atoi_calls; fold r1; fold c2; fold r2; same_trace|].
  split; [exact Hlen|]. split; [exact Hblocks|].
  clear - Hblocks Hlen. subst n.
  induction Hblocks as [|block blocks (rp & tr & rk & -> & _ & Hshape & _) _ IH];
    [reflexivity|].
  cbn [List.concat List.length repeat]. rewrite notifications_app, IH.
  now rewrite (block_notifications _ _ _ _ _ Hshape).
Qed.

End ProcessRuns.

(** ** The further properties at work on the test doubles *)

Section MoreWitnesses.

Import TestDouble.

Lemma healthy_result_range chunk c :
  0 <= chunk < 2 ^ 31 -> 0 <= ret (healthy chunk c) < 2 ^ 31.
Proof. intros Hchunk. destruct c; cbn; lia. Qed.

Lemma interrupted_int_results k : int_results (timed (interrupted_at k)).
Proof.
  intros n c. cbn. unfold interrupted_at.
  destruct (Nat.eqb n k); [cbn; lia|].
  pose proof (healthy_result_range 5 c). lia.
Qed.

Lemma interrupted_posix_read k fd : posix_read (timed (interrupted_at k)) fd.
Proof.
  intros n off count Hcount. cbn. unfold interrupted_at.
  destruct (Nat.eqb n k); cbn.
  - repeat split; try lia. discriminate.
  - unfold zeros. rewrite repeat_length. repeat split; lia.
Qed.

Lemma undeliverable_posix_errno : posix_errno (constant undeliverable).
Proof.
  intros w c. cbn. destruct c; cbn; try lia. discriminate.
Qed.

Lemma undeliverable_posix_kill : posix_kill (constant undeliverable).
Proof. intros w pid sig. cbn. lia. Qed.

(** No argument at all. *)
Lemma main_wrong_argument_count_witness :
  let os := constant (healthy 5) in
  let s1 := after os (boot tt) (fprintf_stderr usage_text) in
  main os 3 17 ["m5stat-monitor"%string] (boot tt) = (Done EINVAL, s1)
  /\ trace s1
     = trace (boot tt)
         ++ [(fprintf_stderr usage_text, answer os (boot tt) (fprintf_stderr usage_text))]
  /\ parse_argv os 1 ["m5stat-monitor"%string] (boot tt) = (Done (EINVAL, None), s1).
Proof.
  intros os s1.
  apply (main_wrong_argument_count os 3 17 ["m5stat-monitor"%string] (boot tt)).
  cbn. lia.
Defined.

(** The first wait is interrupted. *)
Lemma main_never_returns_zero_witness :
  let os := timed (interrupted_at 2) in
  let run := main os 3 17 argv0 (boot 0%nat) in
  posix_errno os /\ int_results os
  /\ run = (Done EINTR, snd run)
  /\ EINTR <> 0.
Proof.
  intros os run.
  assert (Herr : posix_errno os) by apply interrupted_posix_errno.
  assert (Hint : int_results os) by apply interrupted_int_results.
  assert (Hrun : run = (Done EINTR, snd run)) by reflexivity.
  split; [exact Herr|]. split; [exact Hint|]. split; [exact Hrun|].
  exact (main_never_returns_zero os 3 17 argv0 (boot 0%nat) EINTR (snd run)
           Herr Hint Hrun).
Defined.

Lemma read_inotify_event_single_read_witness :
  let os := constant (healthy 16) in
  let c := read 3 0 sizeof_inotify_event in
  read_inotify_event os 2 3 ie_indeterminate (boot tt)
  = (Done (0, write_at 0 (data (answer os (boot tt) c)) ie_indeterminate),
     after os (boot tt) c)
  /\ exists status,
      handle_inotify_event os 2 3 4242 (boot tt)
      = (Done status, after os (after os (boot tt) c) (kill 4242 SIGUSR1)).
Proof.
  intros os c.
  apply (read_inotify_event_single_read os 3 4242 2 ie_indeterminate (boot tt)).
  - reflexivity.
  - lia.
Defined.

(** Bytes that come one at a time. *)
Lemma read_inotify_event_call_count_witness :
  let os := constant (healthy 1) in
  lively os 3
  /\ exists ie s' tr,
      read_inotify_event os 17 3 ie_indeterminate (boot tt) = (Done (0, ie), s')
      /\ trace s' = trace (boot tt) ++ tr
      /\ (1 <= List.length tr <= Z.to_nat sizeof_inotify_event)%nat
      /\ Forall (fun e => is_read 3 e /\ 1 <= ret (snd e)) tr.
Proof.
  intros os.
  assert (Hos : lively os 3) by (apply healthy_lively; lia).
  split; [exact Hos|].
  apply (read_inotify_event_call_count os 3 17 ie_indeterminate (boot tt) Hos).
  vm_compute. lia.
Defined.

(** Five bytes, then an interrupted read: the record holds the five bytes
    and is indeterminate beyond. *)
Lemma read_inotify_event_frame_witness :
  let os := timed (interrupted_at 1) in
  let run := read_inotify_event os 17 3 ie_indeterminate (boot 0%nat) in
  let ie := map Some (zeros 5) ++ repeat None 11 in
  posix_read os 3
  /\ run = (Done (EINTR, ie), snd run)
  /\ exists tr,
      trace (snd run) = trace (boot 0%nat) ++ tr
      /\ (List.length (delivered tr) <= Z.to_nat sizeof_inotify_event)%nat
      /\ ie = map Some (delivered tr)
                ++ skipn (List.length (delivered tr)) ie_indeterminate
      /\ (delivered tr = [] -> ie = ie_indeterminate).
Proof.
  intros os run ie.
  assert (Hos : posix_read os 3) by apply interrupted_posix_read.
  assert (Hrun : run = (Done (EINTR, ie), snd run)) by reflexivity.
  split; [exact Hos|]. split; [exact Hrun|].
  exact (read_inotify_event_frame os 3 17 ie_indeterminate (boot 0%nat)
           EINTR ie (snd run) Hos eq_refl Hrun).
Defined.

Lemma monitor_file_one_signal_per_wait_witness :
  let os := timed (interrupted_at 7) in
  let run := monitor_file os 5 17 3 4242 (boot 0%nat) in
  run = (Done EINTR, snd run)
  /\ exists tr k,
      trace (snd run) = trace (boot 0%nat) ++ tr
      /\ notifications tr = repeat (4242, SIGUSR1) k
      /\ (k <= waits tr <= k + 1)%nat
      /\ turns false 4242 tr.
Proof.
  intros os run.
  assert (Hrun : run = (Done EINTR, snd run)) by reflexivity.
  split; [exact Hrun|].
  exact (monitor_file_one_signal_per_wait os 3 4242 5 17 (boot 0%nat)
           (Done EINTR) (snd run) Hrun).
Defined.

Lemma main_calls_are_addressed_witness :
  let os := constant (healthy 7) in
  let run := main os 2 17 argv0 (boot tt) in
  run = (OutOfFuel, snd run)
  /\ exists r1 rest,
      trace (snd run) = trace (boot tt) ++ (inotify_init, r1) :: rest
      /\ Forall (addressed (ret r1) "/tmp/stats.txt" (Libc.atoi "4242")) rest.
Proof.
  intros os run.
  assert (Hrun : run = (OutOfFuel, snd run)) by reflexivity.
  split; [exact Hrun|].
  exact (main_calls_are_addressed os 2 17 "m5stat-monitor" "/tmp/stats.txt" "4242"
           (boot tt) OutOfFuel (snd run) Hrun).
Defined.

(** The target process does not exist. *)
Lemma monitor_file_stops_at_first_error_witness :
  let os := constant undeliverable in
  let run := monitor_file os 5 17 3 4242 (boot tt) in
  posix_errno os /\ posix_kill os
  /\ run = (Done ESRCH, snd run)
  /\ List.length (trace (snd run)) = 3%nat
  /\ exists tr,
      trace (snd run) = trace (boot tt) ++ tr
      /\ ((calm tr /\ Done ESRCH = @OutOfFuel Z)
          \/ (exists pre e,
                 tr = pre ++ [e] /\ calm pre /\ reports_error e = true
                 /\ err (snd e) <> 0 /\ Done ESRCH = Done (err (snd e))))
      /\ (forall pre e post,
             tr = pre ++ e :: post -> reports_error e = true ->
             post = [] /\ Done ESRCH = Done (err (snd e))).
Proof.
  intros os run.
  assert (Herr : posix_errno os) by apply undeliverable_posix_errno.
  assert (Hkill : posix_kill os) by apply undeliverable_posix_kill.
  assert (Hrun : run = (Done ESRCH, snd run)) by reflexivity.
  split; [exact Herr|]. split; [exact Hkill|]. split; [exact Hrun|].
  split; [reflexivity|].
  exact (monitor_file_stops_at_first_error os 3 4242 5 17 (boot tt)
           (Done ESRCH) (snd run) Herr Hkill Hrun).
Defined.

(** Three events on [/tmp/stats.txt] for process 4242. *)
Lemma main_runs_the_loop_on_the_new_channel_witness :
  let os := constant (healthy 7) in
  healthy_system os 3 4242
  /\ exists s' blocks,
      main os 3 17 argv0 (boot tt) = (OutOfFuel, s')
      /\ trace s'
         = trace (boot tt)
             ++ (inotify_init, Reply 3 0 [])
             :: (inotify_add_watch 3 "/tmp/stats.txt" (Z.lor IN_MODIFY IN_CREATE),
                 Reply 1 0 [])
             :: List.concat blocks
      /\ List.length blocks = 3%nat
      /\ Forall (iteration 3 4242) blocks
      /\ notifications (List.concat blocks) = repeat (4242, SIGUSR1) 3.
Proof.
  intros os.
  assert (Hos : healthy_system os 3 4242) by (apply healthy_healthy_system; lia).
  split; [exact Hos|].
  apply (main_runs_the_loop_on_the_new_channel os 17
           "m5stat-monitor" "/tmp/stats.txt" "4242" (boot tt)).
  - vm_compute. discriminate.
  - vm_compute. discriminate.
  - exact Hos.
  - vm_compute. lia.
Defined.

End MoreWitnesses.

(** ** The process identifier on the command line *)

(** Text that starts with neither white space, nor a sign, nor a digit is
    no number out of range: [atoi] leaves [errno] alone. *)
Lemma out_of_range_without_digits c rest :
  Libc.isspace c = false ->
  Libc.isdigit c = false ->
  c <> "-"%char ->
  c <> "+"%char ->
  Libc.out_of_range (String c rest) = false.
Proof.
  intros Hspace Hdigit Hminus Hplus.
  assert (Hnumber : Libc.number (String c rest) = 0).
  { unfold Libc.number. cbn [Libc.skip_space]. rewrite Hspace.
    assert (Hv : Libc.digits 0 (String c rest) = 0)
      by (cbn [Libc.digits]; now rewrite Hdigit).
    destruct c as [[] [] [] [] [] [] [] []];
      try (elim Hminus; reflexivity); try (elim Hplus; reflexivity);
      exact Hv. }
  unfold Libc.out_of_range. rewrite Hnumber. reflexivity.
Qed.

Section PidText.

Import TestDouble.

(** A number too large for a [long]: [parse_argv] still returns 0, the
    process identifier is [(int) LONG_MAX], which is -1, and [errno] holds
    [ERANGE]. *)
Lemma parse_argv_number_out_of_range :
  parse_argv (constant (healthy 5)) 3
    ["m5stat-monitor"; "/tmp/stats.txt"; "99999999999999999999"]%string (boot tt)
  = (Done (0, Some ("/tmp/stats.txt"%string, -1)), State tt ERANGE []).
Proof. vm_compute. reflexivity. Qed.

(** Text that is no number: the process identifier is 0 and [errno] is
    left alone. *)
Lemma parse_argv_no_number :
  parse_argv (constant (healthy 5)) 3
    ["m5stat-monitor"; "/tmp/stats.txt"; "abc"]%string (boot tt)
  = (Done (0, Some ("/tmp/stats.txt"%string, 0)), boot tt).
Proof. vm_compute. reflexivity. Qed.

End PidText.
